(** * Verification of the Arduino sketches [safe-lock] and [TempHumidityMonitor]

    The two sketches are embedded as Rocq functions, one module each.  The
    lock sketch is a polling loop over global variables; it is modelled in a
    small monad that threads the globals, the future samples of the IR pin
    and the output trace, and that stops at an access to [pulses] or [code]
    outside the array.  The monitor sketch is modelled from its sampling
    loop down to the threshold test on a single-precision reading; the text
    of its mails and the libraries that send them are left out. *)

From Stdlib Require Import ZArith Lia Bool Ascii String QArith Qpower.
From Stdlib Require Import Floats.SpecFloat.
From stdpp Require Import base list strings.

Local Open Scope Z_scope.

(** Indexing a C array by a signed index: [None] outside the array. *)
Definition at_index {A} (l : list A) (i : Z) : option A :=
  if i <? 0 then None else l !! Z.to_nat i.

(** * safe-lock.ino *)

Module SafeLock.

(** ** Machine arithmetic *)

(** The header of safe-lock.ino names "arduino or ESP32 or similar" as the
    target; the two differ in the width of [int]. *)
Inductive board := AVR | ESP32.

(** Bits of an [int] on each board. *)
Definition int_bits (b : board) : Z :=
  match b with AVR => 16 | ESP32 => 32 end.

(** [uint8_t] and [uint16_t] increments wrap around. *)
Definition wrap8 (x : Z) : Z := x mod 2 ^ 8.

(** The phase counters [highpulse] and [lowpulse] are [uint16_t]. *)
Definition wrap16 (x : Z) : Z := x mod 2 ^ 16.

(** safe-lock.ino:40 *)
Definition MAXPULSE : Z := 65000.

(** safe-lock.ino:45 *)
Definition RESOLUTION : Z := 20.

(** [pulses[i][k] * RESOLUTION]: a [uint16_t] times an [int].  With a 16 bit
    [int] the left operand is promoted to [unsigned int] and the product
    wraps modulo 2^16; with a 32 bit [int] it is promoted to [int], where
    the product of a 16 bit value and 20 always fits. *)
Definition scaled (b : board) (d : Z) : Z :=
  match b with
  | AVR => (d * RESOLUTION) mod 2 ^ int_bits AVR
  | ESP32 => d * RESOLUTION
  end.

(** ** Output trace *)

Inductive event :=
| SerialPrint (s : string)          (* Serial.print / Serial.println of a literal *)
| SerialPrintBuf (s : list ascii) (behind : bool)
                                    (* Serial.println(str): the bytes of str
                                       that are sent, and whether the read
                                       went on behind the array *)
| SerialPrintNum (n : Z)            (* Serial.println(i) *)
| Tone (pin freq : Z)               (* tone(pin, freq) *)
| NoTone (pin : Z)                  (* noTone(pin) *)
| ServoWrite (angle : Z).           (* myservo.write(angle) *)

(** ** Program state *)

(** The globals of safe-lock.ino, the function-static [pos] of [checkcode],
    and the environment: [stack] gives the indeterminate bytes found in the
    memory of the local array [str] when [getvalue] is entered, [pins] the
    successive values read from the IR pin by the busy-wait loops. *)
Record state := mkState {
  pulses : list (Z * Z);       (* uint16_t pulses[100][2] *)
  currentpulse : Z;            (* uint8_t currentpulse *)
  servopos : Z;                (* int servopos *)
  pos : Z;                     (* static int pos *)
  stack : nat → ascii;
  pins : list bool;
  trace : list event
}.

(** Field updates. *)
Definition set_pulses (v : list (Z * Z)) (st : state) : state :=
  mkState v (currentpulse st) (servopos st) (pos st) (stack st) (pins st) (trace st).

Definition set_currentpulse (v : Z) (st : state) : state :=
  mkState (pulses st) v (servopos st) (pos st) (stack st) (pins st) (trace st).

Definition set_servopos (v : Z) (st : state) : state :=
  mkState (pulses st) (currentpulse st) v (pos st) (stack st) (pins st) (trace st).

Definition set_pos (v : Z) (st : state) : state :=
  mkState (pulses st) (currentpulse st) (servopos st) v (stack st) (pins st) (trace st).

Definition set_stack (v : nat → ascii) (st : state) : state :=
  mkState (pulses st) (currentpulse st) (servopos st) (pos st) v (pins st) (trace st).

Definition set_pins (v : list bool) (st : state) : state :=
  mkState (pulses st) (currentpulse st) (servopos st) (pos st) (stack st) v (trace st).

Definition set_trace (v : list event) (st : state) : state :=
  mkState (pulses st) (currentpulse st) (servopos st) (pos st) (stack st) (pins st) v.

(** ** The monad of the sketch *)

(** A store into [pulses], or a load from [pulses] or [code], outside the
    array has no defined behaviour and decides how the sketch goes on: the
    run stops and reports which access it was.  The one other access that
    can leave an array, the read of [Serial.println(str)] behind [str],
    changes no variable and decides nothing: it is recorded in the trace
    (the flag of [SerialPrintBuf]) and the run goes on. *)
Inductive fault :=
| PulsesStore (i : Z)    (* pulses[i][_] = ... with i outside 0..99 *)
| PulsesLoad (i : Z)     (* ... = pulses[i][_] with i outside 0..99 *)
| CodeLoad (i : Z).      (* ... = code[i] with i outside 0..7 *)

Inductive result (A : Type) :=
| Ok (a : A) (st : state)
| Undefined (f : fault) (st : state)
| Starved (st : state).      (* a busy-wait loop ran out of pin samples *)

Arguments Ok {A} a st.
Arguments Undefined {A} f st.
Arguments Starved {A} st.

(** A computation reads and changes the state and ends in a [result]. *)
Definition M (A : Type) : Type := state → result A.

Definition ret {A} (a : A) : M A := fun st => Ok a st.

Definition bind {A B} (c : M A) (k : A → M B) : M B := fun st =>
  match c st with
  | Ok a st' => k a st'
  | Undefined f st' => Undefined f st'
  | Starved st' => Starved st'
  end.

Notation "'do' x <- c ;; k" := (bind c (fun x => k))
  (at level 10, x name, c at level 99, k at level 200).

Notation "c ;; k" := (bind c (fun _ => k))
  (at level 100, k at level 200, right associativity).

(** Reading a variable, assigning, and appending to the output. *)
Definition get {A} (f : state → A) : M A := fun st => Ok (f st) st.

Definition modify (f : state → state) : M unit := fun st => Ok tt (f st).

Definition emit (e : event) : M unit :=
  modify (fun st => set_trace (trace st ++ [e]) st).

Definition undefined {A} (f : fault) : M A := fun st => Undefined f st.

(** The state a run ends in, whatever its outcome. *)
Definition final {A} (r : result A) : state :=
  match r with Ok _ st | Undefined _ st | Starved st => st end.

(** ** The sketch *)

(** safe-lock.ino:37 *)
Definition buzzer : Z := 9.

(** safe-lock.ino:54-65 *)
Definition numstrs : list string := [
  "1101000100101110101010000101011111";
  "1101000100101110110000000011111111";
  "1101000100101110101000000101111111";
  "1101000100101110111000000001111111";
  "1101000100101110100100000110111111";
  "1101000100101110110100000010111111";
  "1101000100101110101100000100111111";
  "1101000100101110111100000000111111";
  "1101000100101110100010000111011111";
  "1101000100101110110010000011011111"
]%string.

(** safe-lock.ino:67 *)
Definition code : list Z := [5; 5; 6; 8; 7; 2; 8; 0].

(** Contents of memory at power-on: zeroed globals, nothing printed yet. *)
Definition power_on (junk : nat → ascii) (samples : list bool) : state :=
  mkState (replicate 100 (0, 0)) 0 0 0 junk samples [].

(** safe-lock.ino:69-79 *)
Definition setup : M unit :=
  emit (SerialPrint "Ready to decode IR!") ;;
  do a <- get servopos ;;
  emit (ServoWrite a).

(** safe-lock.ino:81-92.  The 300 ms pause between the two calls is the
    length of the tone and leaves no mark of its own in the trace. *)
Definition buzz (good : bool) : M unit :=
  (if negb good then emit (Tone buzzer 250) else emit (Tone buzzer 1000)) ;;
  emit (NoTone buzzer).

(** safe-lock.ino:94-103 *)
Definition togglelock : M unit :=
  emit (SerialPrint "Congratulations!") ;;
  do a <- get servopos ;;
  (if a =? 0 then modify (set_servopos 180) else modify (set_servopos 0)) ;;
  do a' <- get servopos ;;
  emit (ServoWrite a').

(** [strncmp] of the C library on two byte sequences; the end of a list
    stands for the terminating zero byte of a string. *)
Fixpoint strncmp (s1 s2 : list ascii) (n : nat) : Z :=
  match n with
  | O => 0
  | S n' =>
      let c1 := hd zero s1 in
      let c2 := hd zero s2 in
      if negb (Ascii.eqb c1 c2)
      then Z.of_nat (nat_of_ascii c1) - Z.of_nat (nat_of_ascii c2)
      else if Ascii.eqb c1 zero then 0
      else strncmp (tl s1) (tl s2) n'
  end.

(** First loop of [getvalue], safe-lock.ino:178-190.  [todo] counts the
    iterations left before [i] reaches [currentpulse]; the loop also stops
    when [charpos] reaches 34.  The result is [charpos] and [str]. *)
Fixpoint decode_from (b : board) (todo : nat) (i charpos : Z) (str : list ascii)
  : M (Z * list ascii) :=
  match todo with
  | O => ret (charpos, str)
  | S todo' =>
      if charpos <? 34 then
        do ps <- get pulses ;;
        match at_index ps i with
        | None => undefined (PulsesLoad i)
        | Some (high, low) =>
            if scaled b low >? 1000 then
              decode_from b todo' (wrap8 (i + 1)) charpos str
            else if scaled b high >? 1000 then
              emit (SerialPrint "1") ;;
              decode_from b todo' (wrap8 (i + 1)) (charpos + 1)
                (<[Z.to_nat charpos := "1"%char]> str)
            else
              emit (SerialPrint "0") ;;
              decode_from b todo' (wrap8 (i + 1)) (charpos + 1)
                (<[Z.to_nat charpos := "0"%char]> str)
        end
      else ret (charpos, str)
  end.

(** Second loop of [getvalue], safe-lock.ino:194-200, over the entries of
    [numstrs] from index [i] on. *)
Fixpoint match_from (tbl : list string) (i : Z) (str : list ascii) : M Z :=
  match tbl with
  | [] => ret (-1)
  | p :: tbl' =>
      if strncmp str (list_ascii_of_string p) 34 =? 0 then
        emit (SerialPrintNum i) ;;
        ret i
      else match_from tbl' (i + 1) str
  end.

(** The bytes [Serial.println] sends from a [char] array it is handed as
    a string: those before the first zero byte. *)
Fixpoint cstring (a : list ascii) : list ascii :=
  match a with
  | [] => []
  | c :: rest => if Ascii.eqb c zero then [] else c :: cstring rest
  end.

(** No byte of the array is zero: the string does not end inside it. *)
Definition unterminated (a : list ascii) : bool :=
  forallb (fun c => negb (Ascii.eqb c zero)) a.

(** safe-lock.ino:173-202.  Nothing terminates [str]:
    [Serial.println(str)] at line 192 sends its bytes up to the first zero
    byte, and when the 34 bytes hold none it reads on behind the array and
    sends what it finds there.  The memory behind [str] is not part of the
    state; the event carries the bytes that come from [str] and says
    whether the read left the array. *)
Definition getvalue (b : board) : M Z :=
  do junk <- get stack ;;
  do cp <- get currentpulse ;;
  do r <- decode_from b (Z.to_nat cp) 0 0 (junk <$> seq 0 34) ;;
  emit (SerialPrint (String "010" "")) ;;
  emit (SerialPrintBuf (cstring (snd r)) (unterminated (snd r))) ;;
  match_from numstrs 0 (snd r).

(** The part of [checkcode] after [num = getvalue()], safe-lock.ino:111-128. *)
Definition check_digit (num : Z) : M unit :=
  if num =? -1 then
    buzz false ;;
    modify (set_pos 0)
  else
    do p <- get pos ;;
    match at_index code p with
    | None => undefined (CodeLoad p)
    | Some c =>
        (if num =? c then
           buzz true ;;
           modify (set_pos (p + 1))
         else
           buzz false ;;
           modify (set_pos 0)) ;;
        do p' <- get pos ;;
        if p' =? 8 then
          modify (set_pos 0) ;;
          togglelock
        else ret tt
    end.

(** safe-lock.ino:105-129 *)
Definition checkcode (b : board) : M unit :=
  do num <- getvalue b ;;
  check_digit num.

(** How a busy-wait loop of [loop] ends: the pin changed level after
    [count] polls, or the count reached [MAXPULSE] with pulses captured. *)
Inductive waited := Edge (count : Z) | TimedOut.

(** The two [while] loops of [loop], safe-lock.ino:137-152 and 157-166:
    poll while the pin reads [level]. *)
Fixpoint wait_while (level : bool) (cp count : Z) (samples : list bool)
  : option (waited * list bool) :=
  match samples with
  | [] => None
  | s :: rest =>
      if Bool.eqb s level then
        let count' := wrap16 (count + 1) in
        if (count' >=? MAXPULSE) && negb (cp =? 0) then Some (TimedOut, rest)
        else wait_while level cp count' rest
      else Some (Edge count, rest)
  end.

Definition busy_wait (level : bool) : M waited := fun st =>
  match wait_while level (currentpulse st) 0 (pins st) with
  | None => Starved (set_pins [] st)
  | Some (w, rest) => Ok w (set_pins rest st)
  end.

(** [pulses[currentpulse][col] = v], safe-lock.ino:154 and 167. *)
Definition store_pulse (col : bool) (v : Z) : M unit :=
  do cp <- get currentpulse ;;
  do ps <- get pulses ;;
  match at_index ps cp with
  | None => undefined (PulsesStore cp)
  | Some (high, low) =>
      modify (set_pulses (<[Z.to_nat cp := if col then (high, v) else (v, low)]> ps))
  end.

(** safe-lock.ino:131-171 *)
Definition loop (b : board) : M unit :=
  do h <- busy_wait true ;;
  match h with
  | TimedOut =>
      checkcode b ;;
      modify (set_currentpulse 0)
  | Edge highpulse =>
      store_pulse false highpulse ;;
      do l <- busy_wait false ;;
      match l with
      | TimedOut =>
          checkcode b ;;
          modify (set_currentpulse 0)
      | Edge lowpulse =>
          store_pulse true lowpulse ;;
          do cp <- get currentpulse ;;
          modify (set_currentpulse (wrap8 (cp + 1)))
      end
  end.

(** The Arduino runtime calls [loop] again and again. *)
Fixpoint run (b : board) (n : nat) : M unit :=
  match n with
  | O => ret tt
  | S n' => loop b ;; run b n'
  end.

(** The sketch from power-on: [setup], then [n] calls of [loop]. *)
Definition sketch (b : board) (n : nat) : M unit := setup ;; run b n.

(** ** The decoder as a function of the capture *)

(** The test of safe-lock.ino:179 on one pair, in the arithmetic of the
    board: the pair is passed over when [scaled] of its low phase exceeds
    1000. *)
Definition is_gap (b : board) (p : Z * Z) : bool := scaled b (snd p) >? 1000.

(** The test of safe-lock.ino:182 on one pair, in the arithmetic of the
    board: '1' when [scaled] of its high phase exceeds 1000. *)
Definition bit_of (b : board) (p : Z * Z) : ascii :=
  if scaled b (fst p) >? 1000 then "1"%char else "0"%char.

(** The bits the first loop of [getvalue] produces from a captured
    sequence: pairs passed over dropped, order kept, at most 34. *)
Definition spec_bits (b : board) (captured : list (Z * Z)) : list ascii :=
  take 34 (bit_of b <$> filter (fun p => is_gap b p = false) captured).

(** ** Reference definitions, in the words of the specification *)

(** A phase "scaled by the resolution" is the product of its count and
    [RESOLUTION], a number of microseconds.  A pair is an inter-frame gap
    when its scaled low phase exceeds 1000. *)
Definition gap_in_words (p : Z * Z) : bool := snd p * RESOLUTION >? 1000.

(** The bit of a data pair: '1' when its scaled high phase exceeds 1000. *)
Definition bit_in_words (p : Z * Z) : ascii :=
  if fst p * RESOLUTION >? 1000 then "1"%char else "0"%char.

(** Bits of a captured sequence: gaps dropped, order kept, at most 34. *)
Definition bits_in_words (captured : list (Z * Z)) : list ascii :=
  take 34 (bit_in_words <$> filter (fun p => gap_in_words p = false) captured).

(** Both scaled phases of a pair fit the 16 bits in which a board with a
    16 bit [int] computes them; with a 32 bit [int] every count does. *)
Definition fits (b : board) (p : Z * Z) : Prop :=
  b = ESP32 ∨
  (0 <= fst p * RESOLUTION < 2 ^ 16 ∧ 0 <= snd p * RESOLUTION < 2 ^ 16).

(** Index of the first table pattern equal to the 34 characters, or -1. *)
Definition spec_match (str : list ascii) : Z :=
  match list_find (fun p => list_ascii_of_string p = take 34 str) numstrs with
  | Some (i, _) => Z.of_nat i
  | None => -1
  end.

(** The pairs captured so far, and the contents of [str] once the first
    loop of [getvalue] has run over them. *)
Definition captured (st : state) : list (Z * Z) :=
  take (Z.to_nat (currentpulse st)) (pulses st).

Definition decoded (b : board) (st : state) : list ascii :=
  let bits := spec_bits b (captured st) in
  bits ++ drop (length bits) (stack st <$> seq 0 34).

(** The two feedback cues. *)
Definition cue (good : bool) : list event :=
  [Tone buzzer (if good then 1000 else 250); NoTone buzzer].

(** The digits of a list handed to the lock one after the other. *)
Fixpoint feed (nums : list Z) : M unit :=
  match nums with
  | [] => ret tt
  | n :: rest => check_digit n ;; feed rest
  end.

(** ** Well-formed and reachable states *)

(** The capture buffer is the array of 100 pairs and the capture index
    points into it or just behind it. *)
Definition buffer_ok (st : state) : Prop :=
  length (pulses st) = 100%nat ∧ 0 <= currentpulse st <= 100.

(** The lock position points into [code]. *)
Definition pos_ok (st : state) : Prop := 0 <= pos st < 8.

(** States the sketch can be in between two calls of [loop]: after [setup],
    after a completed [loop], and after other code has reused the stack
    memory that [str] will occupy. *)
Inductive reachable (b : board) : state → Prop :=
| reach_setup junk samples st :
    setup (power_on junk samples) = Ok tt st → reachable b st
| reach_loop st st' :
    reachable b st → loop b st = Ok tt st' → reachable b st'
| reach_stack st junk :
    reachable b st → reachable b (set_stack junk st).

(** ** States after the steps of the sketch *)

(** After a digit is refused: failure cue, position 0. *)
Definition rejected (st : state) : state :=
  set_pos 0 (set_trace (trace st ++ cue false) st).

(** After one of the first seven digits is accepted: success cue, next
    position. *)
Definition advanced (st : state) : state :=
  set_pos (pos st + 1) (set_trace (trace st ++ cue true) st).

(** The servo angle after [togglelock]. *)
Definition toggled (a : Z) : Z := if a =? 0 then 180 else 0.

(** After the eighth digit is accepted at position 7: success cue,
    position 0, latch toggled. *)
Definition unlocked (st : state) : state :=
  set_trace (trace st ++ cue true ++
             [SerialPrint "Congratulations!"; ServoWrite (toggled (servopos st))])
    (set_servopos (toggled (servopos st)) (set_pos 0 st)).

(** [Serial.print] of one bit. *)
Definition bit_event (c : ascii) : event := SerialPrint (String c EmptyString).

(** A pattern of the table: [n] characters, none of them the zero byte. *)
Definition pattern (n : nat) (p : list ascii) : Prop :=
  length p = n ∧ zero ∉ p.

(** What [getvalue] prints. *)
Definition getvalue_output (b : board) (st : state) : list event :=
  (bit_event <$> spec_bits b (captured st)) ++
  [SerialPrint (String "010" "");
   SerialPrintBuf (cstring (decoded b st)) (unterminated (decoded b st))] ++
  (if spec_match (decoded b st) =? -1 then []
   else [SerialPrintNum (spec_match (decoded b st))]).

(** The state after [getvalue]. *)
Definition printed (b : board) (st : state) : state :=
  set_trace (trace st ++ getvalue_output b st) st.

(** The state after [check_digit]. *)
Definition after_digit (num : Z) (st : state) : state :=
  if num =? -1 then rejected st
  else match at_index code (pos st) with
       | Some c =>
           if num =? c then (if pos st =? 7 then unlocked st else advanced st)
           else rejected st
       | None => st
       end.

(** The state after a timeout: [checkcode] has run and the capture index
    is back at 0. *)
Definition timed_out (b : board) (st : state) : state :=
  set_currentpulse 0 (after_digit (spec_match (decoded b st)) (printed b st)).

(** The state after the high phase of pulse [currentpulse] is stored. *)
Definition high_stored (highpulse : Z) (st : state) : state :=
  match at_index (pulses st) (currentpulse st) with
  | Some (_, low) =>
      set_pulses (<[Z.to_nat (currentpulse st) := (highpulse, low)]> (pulses st)) st
  | None => st
  end.

(** The state after a whole pulse pair is stored and counted. *)
Definition pair_stored (highpulse lowpulse : Z) (st : state) : state :=
  set_currentpulse (wrap8 (currentpulse st + 1))
    (set_pulses (<[Z.to_nat (currentpulse st) := (highpulse, lowpulse)]> (pulses st)) st).

(** [n] success cues in a row. *)
Definition cues (n : nat) : list event := concat (replicate n (cue true)).

(** The lock position, the latch and the output are the same in both
    states: no cue was given, nothing was printed, the servo was not moved. *)
Definition lock_untouched (st st' : state) : Prop :=
  pos st' = pos st ∧ servopos st' = servopos st ∧ trace st' = trace st.

(** ** Concrete inputs *)

(** Stack memory that holds zero bytes. *)
Definition blank_stack : nat → ascii := fun _ => zero.

(** [n] short pulse pairs: the pin is polled high once and low once for
    each, so none of the phases comes near the timeout. *)
Definition burst (n : nat) : list bool :=
  concat (replicate n [true; false; false; true]).

(** A capture as a remote control produces it: a header pair with a long
    low phase, then one pair per bit of the key's pattern. *)
Definition pair_of_bit (c : ascii) : Z * Z :=
  if Ascii.eqb c "1" then (84, 28) else (28, 28).

(** The pulse pairs of a key press. *)
Definition frame (p : string) : list (Z * Z) :=
  (225, 450) :: (pair_of_bit <$> list_ascii_of_string p).

(** The state in which the pairs of a key press have been captured. *)
Definition key_capture (junk : nat → ascii) (p : string) : state :=
  mkState (take 100 (frame p ++ replicate 100 (0, 0)))
    (Z.of_nat (length (frame p))) 0 0 junk [] [].

(** Entry 5 of [numstrs]. *)
Definition key5 : string := "1101000100101110110100000010111111".

(** Stack memory that still holds the characters of a pattern. *)
Definition stale (p : string) : nat → ascii :=
  fun n => nth n (list_ascii_of_string p) zero.

(** One captured pulse pair, met by memory left over from key 5. *)
Definition short_capture : state :=
  mkState ((84, 28) :: replicate 99 (0, 0)) 1 0 0 (stale key5) [] [].

(** Three digits of the code have been entered. *)
Definition mid_entry : state :=
  mkState (replicate 100 (0, 0)) 0 0 3 blank_stack [] [].

(** The line stays high for 70000 polls before the first pulse. *)
Definition idle_line : state :=
  power_on blank_stack (replicate (Z.to_nat 70000) true ++ [false; true]).

(** A capture of key 5 is in the buffer and the line has gone quiet. *)
Definition key5_then_silence : state :=
  set_pins (replicate (Z.to_nat MAXPULSE) true ++ [false; true])
    (key_capture blank_stack key5).

(** The state after [setup] and one captured pulse pair. *)
Definition first_pulse : state :=
  final (sketch AVR 1 (power_on blank_stack (burst 1))).

(** The pin samples of one pulse pair with the counts [(h, l)]: the poll
    that ends the high phase reads low and is not counted, the poll that
    ends the low phase reads high and is not counted either. *)
Definition pair_samples (p : Z * Z) : list bool :=
  replicate (Z.to_nat (fst p)) true ++ replicate (S (Z.to_nat (snd p))) false ++ [true].

(** The pin samples of a key press followed by silence up to the timeout. *)
Definition press (p : string) : list bool :=
  concat (pair_samples <$> frame p) ++ replicate (Z.to_nat MAXPULSE) true.

(** ** Further inputs and invariants *)

(** The counts of a pulse pair that the capture takes as they are. *)
Definition short_phases (p : Z * Z) : Prop :=
  0 <= fst p < MAXPULSE ∧ 0 <= snd p < MAXPULSE.

(** Key 5 held down: the capture goes on with the pairs of a repeat frame. *)
Definition key5_held (junk : nat → ascii) : state :=
  mkState (take 100 (frame key5 ++ [(450, 112); (28, 2000)] ++ replicate 100 (0, 0)))
    37 0 0 junk [] [].

(** One captured pulse pair, met by zeroed memory. *)
Definition short_capture_clean : state := set_stack blank_stack short_capture.

(** The latch is in one of its two positions. *)
Definition servo_ok (st : state) : Prop := servopos st = 0 ∨ servopos st = 180.

(** One captured pair whose high phase lasted 3277 polls, a little over
    65.5 ms, and one whose low phase did. *)
Definition long_high : state :=
  mkState ((3277, 28) :: replicate 99 (0, 0)) 1 0 0 blank_stack [] [].

Definition long_low : state :=
  mkState ((84, 3277) :: replicate 99 (0, 0)) 1 0 0 blank_stack [] [].

(** The pin after power-on: high for 3277 polls, one short burst, then
    silence up to the timeout. *)
Definition late_burst : list bool :=
  pair_samples (3277, 28) ++ replicate (Z.to_nat MAXPULSE) true.

(** A hundred pairs are captured and the next pulse begins. *)
Definition full_buffer : state :=
  mkState (replicate 100 (28, 28)) 100 0 0 blank_stack [true; false; false; true] [].

(** ** Basic facts *)

Ltac munfold :=
  unfold buzz, togglelock, emit, modify, get, ret, undefined, bind in *; cbn in *.

Lemma state_eta st :
  mkState (pulses st) (currentpulse st) (servopos st) (pos st) (stack st)
    (pins st) (trace st) = st.
Proof. destruct st; reflexivity. Qed.

Lemma buzz_ok good st :
  buzz good st = Ok tt (set_trace (trace st ++ cue good) st).
Proof.
  destruct good; munfold; unfold set_trace, cue; cbn;
    rewrite <- app_assoc; reflexivity.
Qed.

Lemma at_index_code p :
  0 <= p < 8 → ∃ c, at_index code p = Some c ∧ 0 <= c <= 9.
Proof.
  intros Hp.
  assert (p = 0 ∨ p = 1 ∨ p = 2 ∨ p = 3 ∨ p = 4 ∨ p = 5 ∨ p = 6 ∨ p = 7) as H by lia.
  destruct H as [->|[->|[->|[->|[->|[->|[->| ->]]]]]]];
    cbn; eexists; (split; [reflexivity | lia]).
Qed.

Lemma bind_Ok {A B} (c : M A) (k : A → M B) st a st' :
  c st = Ok a st' → bind c k st = k a st'.
Proof. intros H. unfold bind. rewrite H. reflexivity. Qed.

Lemma bind_Undefined {A B} (c : M A) (k : A → M B) st f st' :
  c st = Undefined f st' → bind c k st = Undefined f st'.
Proof. intros H. unfold bind. rewrite H. reflexivity. Qed.

Lemma bind_get {A B} (f : state → A) (k : A → M B) st :
  bind (get f) k st = k (f st) st.
Proof. reflexivity. Qed.

Lemma bind_modify {B} (f : state → state) (k : unit → M B) st :
  bind (modify f) k st = k tt (f st).
Proof. reflexivity. Qed.

Lemma bind_emit {B} (e : event) (k : unit → M B) st :
  bind (emit e) k st = k tt (set_trace (trace st ++ [e]) st).
Proof. reflexivity. Qed.

Lemma bind_buzz {B} good (k : unit → M B) st :
  bind (buzz good) k st = k tt (set_trace (trace st ++ cue good) st).
Proof. apply bind_Ok, buzz_ok. Qed.

(** ** One digit handed to the lock *)

Lemma check_digit_no_match st :
  check_digit (-1) st = Ok tt (rejected st).
Proof. unfold check_digit. rewrite Z.eqb_refl, bind_buzz. reflexivity. Qed.

Lemma check_digit_wrong num c st :
  at_index code (pos st) = Some c → num ≠ c →
  check_digit num st = Ok tt (rejected st).
Proof.
  intros Hc Hne. unfold check_digit.
  destruct (num =? -1) eqn:E1.
  - rewrite bind_buzz. reflexivity.
  - rewrite bind_get, Hc.
    apply Z.eqb_neq in Hne. rewrite Hne.
    rewrite bind_Ok with (a := tt) (st' := rejected st).
    + reflexivity.
    + rewrite bind_buzz. reflexivity.
Qed.

Lemma code_digit p c : at_index code p = Some c → 0 <= c <= 9.
Proof.
  unfold at_index. destruct (p <? 0); [discriminate|]. intros Hc.
  unfold code in Hc. remember (Z.to_nat p) as n eqn:En. clear En.
  do 8 (destruct n as [|n]; [cbn in Hc; injection Hc as <-; lia|]).
  discriminate.
Qed.

Lemma check_digit_right num st :
  at_index code (pos st) = Some num → pos st ≠ 7 →
  check_digit num st = Ok tt (advanced st).
Proof.
  intros Hc H7. unfold check_digit.
  pose proof (code_digit _ _ Hc) as Hd.
  destruct (num =? -1) eqn:E1; [lia|].
  rewrite bind_get, Hc, Z.eqb_refl.
  rewrite bind_Ok with (a := tt) (st' := advanced st).
  - rewrite bind_get. cbn.
    destruct (pos st + 1 =? 8) eqn:E; [lia|]. reflexivity.
  - rewrite bind_buzz. reflexivity.
Qed.

Lemma check_digit_last st :
  pos st = 7 → check_digit 0 st = Ok tt (unlocked st).
Proof.
  intros H7. unfold check_digit. cbn [Z.eqb].
  rewrite bind_get, H7.
  change (at_index code 7) with (Some 0). cbn [Z.eqb].
  rewrite bind_Ok with (a := tt) (st' := advanced st).
  - rewrite bind_get. cbn [pos advanced set_pos]. rewrite H7.
    change (7 + 1 =? 8) with true. cbn iota.
    rewrite bind_modify. unfold togglelock.
    rewrite bind_emit, bind_get. cbn [servopos set_trace set_pos].
    unfold unlocked, toggled, advanced, set_trace, set_servopos, set_pos. cbn.
    destruct (servopos st =? 0); cbn; unfold emit, modify, set_trace; cbn;
      rewrite <- !app_assoc; reflexivity.
  - rewrite bind_buzz. unfold advanced. rewrite H7. reflexivity.
Qed.

(** ** The decoding loop *)

Lemma set_trace_nil st : set_trace (trace st ++ []) st = st.
Proof. unfold set_trace. rewrite app_nil_r. apply state_eta. Qed.

Lemma at_index_nat {A} (l : list A) (k : nat) : at_index l (Z.of_nat k) = l !! k.
Proof.
  unfold at_index. destruct (Z.ltb_spec (Z.of_nat k) 0); [lia|].
  rewrite Nat2Z.id. reflexivity.
Qed.

Lemma wrap8_succ (k : nat) : (k < 255)%nat → wrap8 (Z.of_nat k + 1) = Z.of_nat (S k).
Proof. intros H. unfold wrap8. rewrite Z.mod_small; lia. Qed.

Lemma decode_from_spec b todo : ∀ (k c : nat) (str : list ascii) st,
  (k + todo <= length (pulses st))%nat → (k + todo <= 255)%nat →
  (c <= 34)%nat → length str = 34%nat →
  let bits := take (34 - c)
    (bit_of b <$> filter (fun p => is_gap b p = false) (take todo (drop k (pulses st)))) in
  decode_from b todo (Z.of_nat k) (Z.of_nat c) str st =
    Ok (Z.of_nat (c + length bits), take c str ++ bits ++ drop (c + length bits) str)
       (set_trace (trace st ++ (bit_event <$> bits)) st).
Proof.
  induction todo as [|todo IH]; intros k c str st Hlen H255 Hc Hstr; cbn zeta.
  - rewrite take_0, filter_nil, fmap_nil, take_nil. cbn [length app fmap list_fmap].
    rewrite Nat.add_0_r, take_drop, set_trace_nil. reflexivity.
  - cbn [decode_from].
    destruct (Z.ltb_spec (Z.of_nat c) 34) as [Ec|Ec].
    2:{ assert (c = 34%nat) as -> by lia. change (34 - 34)%nat with 0%nat.
        rewrite take_0. cbn [length app fmap list_fmap].
        rewrite Nat.add_0_r, take_drop, set_trace_nil. reflexivity. }
    rewrite bind_get, at_index_nat.
    destruct (pulses st !! k) as [[high low]|] eqn:Ek.
    2:{ apply lookup_ge_None in Ek. lia. }
    rewrite (drop_S _ _ _ Ek). cbn [take].
    rewrite wrap8_succ by lia.
    rewrite filter_cons.
    assert (Hg : is_gap b (high, low) = (scaled b low >? 1000)) by reflexivity.
    assert (Hb : bit_of b (high, low) =
                 if scaled b high >? 1000 then "1"%char else "0"%char) by reflexivity.
    destruct (scaled b low >? 1000) eqn:Eg.
    + rewrite decide_False by (rewrite Hg; discriminate).
      apply (IH (S k) c str st); lia.
    + rewrite decide_True by exact Hg.
      rewrite fmap_cons, Hb. clear Hb.
      replace (34 - c)%nat with (S (34 - S c)) by lia. cbn [take].
      set (bits := take (34 - S c) _).
      assert (Hins : ∀ x, let str' := <[c := x]> str in
        Ok (Z.of_nat (S c + length bits),
            take (S c) str' ++ bits ++ drop (S c + length bits) str')
           (set_trace
              (trace (set_trace (trace st ++ [bit_event x]) st) ++ (bit_event <$> bits))
              (set_trace (trace st ++ [bit_event x]) st)) =
        Ok (Z.of_nat (c + length (x :: bits)),
            take c str ++ (x :: bits) ++ drop (c + length (x :: bits)) str)
           (set_trace (trace st ++ (bit_event <$> x :: bits)) st) :> result (Z * list ascii)).
      { intros x str'. subst str'. cbn [length].
        rewrite Nat.add_succ_r. cbn [Nat.add].
        rewrite drop_insert_lt by lia.
        erewrite take_S_r by (apply list_lookup_insert_eq; lia).
        rewrite take_insert_ge by lia.
        rewrite <- !app_assoc. cbn [app fmap list_fmap].
        unfold set_trace; cbn. rewrite <- app_assoc. reflexivity. }
      destruct (scaled b high >? 1000) eqn:Eh.
      * rewrite bind_emit, Nat2Z.id.
        replace (Z.of_nat c + 1) with (Z.of_nat (S c)) by lia.
        rewrite (IH (S k) (S c)); cbn [pulses set_trace]; try lia.
        -- apply (Hins "1"%char).
        -- rewrite length_insert. exact Hstr.
      * rewrite bind_emit, Nat2Z.id.
        replace (Z.of_nat c + 1) with (Z.of_nat (S c)) by lia.
        rewrite (IH (S k) (S c)); cbn [pulses set_trace]; try lia.
        -- apply (Hins "0"%char).
        -- rewrite length_insert. exact Hstr.
Qed.

(** ** The table lookup *)

Lemma nat_of_ascii_zero c : nat_of_ascii c = 0%nat → c = zero.
Proof.
  intros H. rewrite <- (ascii_nat_embedding c), H. reflexivity.
Qed.

Lemma strncmp_eq n : ∀ s1 s2,
  pattern n s2 → strncmp s1 s2 n = 0 ↔ take n s1 = s2.
Proof.
  induction n as [|n IH]; intros s1 s2 [Hlen Hnz].
  - destruct s2; [|discriminate]. cbn. rewrite take_0. tauto.
  - destruct s2 as [|c2 t2]; [discriminate|].
    assert (c2 ≠ zero) as Hc2.
    { intros ->. apply Hnz. left. }
    assert (pattern n t2) as Ht2.
    { split; [cbn in Hlen; lia|]. intros Hin. apply Hnz. right. exact Hin. }
    cbn [strncmp hd tl].
    destruct s1 as [|c1 t1]; cbn [hd tl].
    + destruct (Ascii.eqb_spec zero c2) as [E|E]; [congruence|]. cbn [negb].
      split; [|discriminate]. intros H.
      assert (nat_of_ascii c2 = 0%nat) as H0
        by (change (nat_of_ascii zero) with 0%nat in H; lia).
      apply nat_of_ascii_zero in H0. congruence.
    + destruct (Ascii.eqb_spec c1 c2) as [->|E]; cbn [negb].
      * destruct (Ascii.eqb_spec c2 zero) as [E0|E0]; [congruence|].
        rewrite (IH t1 t2 Ht2). cbn [take]. split; intros H; congruence.
      * split; intros H.
        -- assert (nat_of_ascii c1 = nat_of_ascii c2) as H0 by lia.
           apply (f_equal ascii_of_nat) in H0.
           rewrite !ascii_nat_embedding in H0. congruence.
        -- cbn [take] in H. congruence.
Qed.

Lemma pattern_check n p :
  Nat.eqb (length p) n && forallb (fun c => negb (Ascii.eqb c zero)) p = true →
  pattern n p.
Proof.
  intros H. apply andb_prop in H as [Hlen Hnz].
  split; [apply Nat.eqb_eq, Hlen|].
  intros Hin. apply list_elem_of_In in Hin.
  rewrite forallb_forall in Hnz. specialize (Hnz zero Hin). discriminate.
Qed.

Lemma numstrs_patterns :
  Forall (fun p => pattern 34 (list_ascii_of_string p)) numstrs.
Proof.
  unfold numstrs.
  repeat (apply Forall_cons; split;
          [apply pattern_check; vm_compute; reflexivity|]).
  apply Forall_nil. trivial.
Qed.

Lemma numstrs_NoDup : NoDup numstrs.
Proof.
  apply (bool_decide_unpack (NoDup numstrs)). vm_compute. exact I.
Qed.

Lemma match_from_spec tbl : ∀ i str st,
  Forall (fun p => pattern 34 (list_ascii_of_string p)) tbl →
  match_from tbl i str st =
    match list_find (fun p => list_ascii_of_string p = take 34 str) tbl with
    | Some (j, _) =>
        Ok (i + Z.of_nat j) (set_trace (trace st ++ [SerialPrintNum (i + Z.of_nat j)]) st)
    | None => Ok (-1) st
    end.
Proof.
  induction tbl as [|p tbl IH]; intros i str st Hall; [reflexivity|].
  apply Forall_cons in Hall as [Hp Hall].
  cbn [match_from list_find].
  pose proof (strncmp_eq 34 str _ Hp) as Hcmp.
  destruct (decide (list_ascii_of_string p = take 34 str)) as [E|E].
  - destruct Hcmp as [_ ->]; [|congruence]. cbn [Z.eqb].
    rewrite bind_emit, Z.add_0_r. reflexivity.
  - destruct (Z.eqb_spec (strncmp str (list_ascii_of_string p) 34) 0) as [E0|E0].
    + apply Hcmp in E0. congruence.
    + rewrite (IH (i + 1) str st Hall).
      destruct (list_find _ tbl) as [[j q]|]; cbn [fmap option_fmap option_map prod_map fst snd];
        [|reflexivity].
      replace (i + 1 + Z.of_nat j) with (i + Z.of_nat (S j)) by lia. reflexivity.
Qed.

(** ** [getvalue] and [checkcode] on a capture that lies in the buffer *)

Lemma spec_bits_length b l : (length (spec_bits b l) <= 34)%nat.
Proof. unfold spec_bits. rewrite length_take. lia. Qed.

Lemma spec_match_range str : -1 <= spec_match str <= 9.
Proof.
  unfold spec_match.
  destruct (list_find _ numstrs) as [[j q]|] eqn:E; [|lia].
  apply list_find_Some in E as (Hj & _ & _).
  apply lookup_lt_Some in Hj. cbn in Hj. lia.
Qed.

Lemma decode_from_captured b st :
  buffer_ok st →
  let bits := spec_bits b (captured st) in
  decode_from b (Z.to_nat (currentpulse st)) 0 0 (stack st <$> seq 0 34) st =
    Ok (Z.of_nat (length bits), decoded b st)
       (set_trace (trace st ++ (bit_event <$> bits)) st).
Proof.
  intros [Hlen Hcp]. cbn zeta.
  pose proof (decode_from_spec b (Z.to_nat (currentpulse st)) 0 0
                (stack st <$> seq 0 34) st) as H.
  cbn zeta in H. rewrite drop_0, take_0 in H.
  change (34 - 0)%nat with 34%nat in H. cbn [Nat.add app] in H.
  apply H; try lia. rewrite length_fmap, length_seq. reflexivity.
Qed.

Lemma getvalue_spec b st :
  buffer_ok st →
  getvalue b st = Ok (spec_match (decoded b st)) (printed b st).
Proof.
  intros Hok. unfold getvalue. rewrite !bind_get.
  rewrite (bind_Ok _ _ _ _ _ (decode_from_captured b st Hok)).
  rewrite !bind_emit. cbn [snd].
  rewrite (match_from_spec numstrs 0 _ _ numstrs_patterns).
  unfold printed, getvalue_output, spec_match, set_trace. cbn [trace pulses currentpulse servopos pos stack pins].
  destruct (list_find _ numstrs) as [[j q]|]; cbn [Z.add Z.eqb].
  - destruct (Z.eqb_spec (Z.of_nat j) (-1)) as [E|E]; [lia|].
    rewrite <- !app_assoc. reflexivity.
  - rewrite <- !app_assoc. reflexivity.
Qed.

Lemma check_digit_spec num st :
  pos_ok st → check_digit num st = Ok tt (after_digit num st).
Proof.
  intros Hpos. unfold after_digit.
  destruct (Z.eqb_spec num (-1)) as [->|Hn]; [apply check_digit_no_match|].
  destruct (at_index_code (pos st) Hpos) as (c & Hc & Hd). rewrite Hc.
  destruct (Z.eqb_spec num c) as [->|Hne].
  - destruct (Z.eqb_spec (pos st) 7) as [E7|E7].
    + assert (c = 0) as -> by (rewrite E7 in Hc; change (at_index code 7) with (Some 0) in Hc; congruence).
      apply check_digit_last, E7.
    + apply check_digit_right; assumption.
  - eapply check_digit_wrong; eassumption.
Qed.

Lemma after_digit_pos num st : pos_ok st → pos_ok (after_digit num st).
Proof.
  unfold pos_ok, after_digit. intros Hp.
  destruct (num =? -1); [cbn; lia|].
  destruct (at_index code (pos st)) as [c|]; [|exact Hp].
  destruct (num =? c); [|cbn; lia].
  destruct (Z.eqb_spec (pos st) 7); cbn; lia.
Qed.

Lemma after_digit_buffer num st :
  pulses (after_digit num st) = pulses st ∧
  currentpulse (after_digit num st) = currentpulse st ∧
  stack (after_digit num st) = stack st ∧
  pins (after_digit num st) = pins st.
Proof.
  unfold after_digit.
  destruct (num =? -1); [cbn; tauto|].
  destruct (at_index code (pos st)) as [c|]; [|tauto].
  destruct (num =? c); [|cbn; tauto].
  destruct (pos st =? 7); cbn; tauto.
Qed.

Lemma checkcode_spec b st :
  buffer_ok st → pos_ok st →
  checkcode b st =
    Ok tt (after_digit (spec_match (decoded b st)) (printed b st)).
Proof.
  intros Hbuf Hpos. unfold checkcode.
  rewrite (bind_Ok _ _ _ _ _ (getvalue_spec b st Hbuf)).
  apply check_digit_spec. exact Hpos.
Qed.

(** ** The busy-wait loops *)

Lemma eqb_negb_l level : Bool.eqb (negb level) level = false.
Proof. destruct level; reflexivity. Qed.

(** With nothing captured a busy-wait loop never times out. *)
Lemma wait_while_idle level : ∀ samples c w rest,
  wait_while level 0 c samples = Some (w, rest) → ∃ n, w = Edge n.
Proof.
  induction samples as [|s samples IH]; intros c w rest H; [discriminate|].
  cbn [wait_while] in H. destruct (Bool.eqb s level).
  - rewrite andb_false_r in H. eapply IH, H.
  - injection H as <- _. eexists; reflexivity.
Qed.

(** With nothing captured the count of a phase of [n] polls wraps around. *)
Lemma wait_while_idle_edge level n : ∀ c rest,
  0 <= c < 2 ^ 16 →
  wait_while level 0 c (replicate n level ++ negb level :: rest) =
    Some (Edge (wrap16 (c + Z.of_nat n)), rest).
Proof.
  induction n as [|n IH]; intros c rest Hc.
  - cbn [replicate app wait_while]. rewrite eqb_negb_l.
    unfold wrap16. rewrite Z.add_0_r, Z.mod_small by lia. reflexivity.
  - cbn [replicate app wait_while]. rewrite eqb_reflx, andb_false_r.
    rewrite IH by (unfold wrap16; apply Z.mod_pos_bound; lia).
    unfold wrap16. rewrite Zplus_mod_idemp_l.
    replace (c + 1 + Z.of_nat n) with (c + Z.of_nat (S n)) by lia. reflexivity.
Qed.

(** A phase shorter than [MAXPULSE] polls ends at the edge. *)
Lemma wait_while_edge level cp n : ∀ c rest,
  0 <= c → c + Z.of_nat n < MAXPULSE →
  wait_while level cp c (replicate n level ++ negb level :: rest) =
    Some (Edge (c + Z.of_nat n), rest).
Proof.
  unfold MAXPULSE. induction n as [|n IH]; intros c rest Hc Hn.
  - cbn [replicate app wait_while]. rewrite eqb_negb_l, Z.add_0_r. reflexivity.
  - cbn [replicate app wait_while]. rewrite eqb_reflx.
    unfold wrap16, MAXPULSE. rewrite Z.mod_small by lia.
    destruct (Z.geb_spec (c + 1) 65000) as [H|H]; [lia|]. cbn [andb].
    rewrite IH by lia.
    replace (c + 1 + Z.of_nat n) with (c + Z.of_nat (S n)) by lia. reflexivity.
Qed.

(** A phase of [MAXPULSE] polls after a captured pulse times out. *)
Lemma wait_while_timeout level cp n : ∀ c rest,
  cp ≠ 0 → 0 <= c → (0 < n)%nat → c + Z.of_nat n = MAXPULSE →
  wait_while level cp c (replicate n level ++ rest) = Some (TimedOut, rest).
Proof.
  unfold MAXPULSE. induction n as [|n IH]; intros c rest Hcp Hc Hn Hsum; [lia|].
  cbn [replicate app wait_while]. rewrite eqb_reflx.
  unfold wrap16, MAXPULSE. rewrite Z.mod_small by lia.
  apply Z.eqb_neq in Hcp as Hcp'. rewrite Hcp'. cbn [negb].
  destruct (Z.geb_spec (c + 1) 65000) as [H|H]; cbn [andb].
  - destruct n; [reflexivity | lia].
  - apply IH; lia.
Qed.

(** ** Short decodes *)

Lemma spec_match_none str :
  (∀ p, p ∈ numstrs → take 34 str ≠ list_ascii_of_string p) →
  spec_match str = -1.
Proof.
  intros Hnone. unfold spec_match.
  destruct (list_find _ numstrs) as [[j q]|] eqn:E; [|reflexivity].
  apply list_find_Some in E as (Hj & Hq & _).
  exfalso. apply (Hnone q); [|congruence].
  apply list_elem_of_lookup. eauto.
Qed.

Lemma numstrs_binary p c :
  p ∈ numstrs → c ∈ list_ascii_of_string p → c = "0"%char ∨ c = "1"%char.
Proof.
  intros Hp Hc.
  assert (forallb (fun q => forallb (fun x => Ascii.eqb x "0" || Ascii.eqb x "1")
                              (list_ascii_of_string q)) numstrs = true) as Hall
    by (vm_compute; reflexivity).
  rewrite forallb_forall in Hall. apply list_elem_of_In in Hp, Hc.
  specialize (Hall p Hp). rewrite forallb_forall in Hall.
  specialize (Hall c Hc). apply orb_prop in Hall as [H|H];
    apply Ascii.eqb_eq in H; tauto.
Qed.

(** A decode shorter than 34 bits gives -1 when the byte of [str] behind
    the last bit is neither '0' nor '1', as in zeroed memory. *)
Lemma getvalue_short_clean b st :
  buffer_ok st →
  let n := length (spec_bits b (captured st)) in
  (n < 34)%nat → stack st n ≠ "0"%char → stack st n ≠ "1"%char →
  getvalue b st = Ok (-1) (printed b st).
Proof.
  intros Hbuf n Hn H0 H1. rewrite (getvalue_spec b st Hbuf). f_equal.
  apply spec_match_none. intros p Hp Heq.
  assert (decoded b st !! n = Some (stack st n)) as Hat.
  { unfold decoded. fold n. rewrite lookup_app_r by lia.
    rewrite Nat.sub_diag, lookup_drop, Nat.add_0_r, list_lookup_fmap.
    rewrite lookup_seq_lt by lia. reflexivity. }
  assert (take 34 (decoded b st) !! n = Some (stack st n)) as Hat'
    by (rewrite lookup_take_lt by lia; exact Hat).
  rewrite Heq in Hat'. apply list_elem_of_lookup_2 in Hat'.
  destruct (numstrs_binary p _ Hp Hat'); congruence.
Qed.

(** ** One call of [loop] *)

Lemma loop_unfold b st :
  loop b st =
    match wait_while true (currentpulse st) 0 (pins st) with
    | None => Starved (set_pins [] st)
    | Some (TimedOut, rest) =>
        (checkcode b ;; modify (set_currentpulse 0)) (set_pins rest st)
    | Some (Edge highpulse, rest) =>
        (store_pulse false highpulse ;;
         do l <- busy_wait false ;;
         match l with
         | TimedOut => checkcode b ;; modify (set_currentpulse 0)
         | Edge lowpulse =>
             store_pulse true lowpulse ;;
             do cp <- get currentpulse ;;
             modify (set_currentpulse (wrap8 (cp + 1)))
         end) (set_pins rest st)
    end.
Proof.
  unfold loop, bind at 1, busy_wait at 1.
  destruct (wait_while true (currentpulse st) 0 (pins st)) as [[[h|] rest]|];
    reflexivity.
Qed.

Lemma store_pulse_ok col v st high low :
  at_index (pulses st) (currentpulse st) = Some (high, low) →
  store_pulse col v st =
    Ok tt (set_pulses (<[Z.to_nat (currentpulse st) :=
                          if col then (high, v) else (v, low)]> (pulses st)) st).
Proof.
  intros H. unfold store_pulse. rewrite !bind_get, H. reflexivity.
Qed.

Lemma store_pulse_fault col v st :
  at_index (pulses st) (currentpulse st) = None →
  store_pulse col v st = Undefined (PulsesStore (currentpulse st)) st.
Proof.
  intros H. unfold store_pulse. rewrite !bind_get, H. reflexivity.
Qed.

Lemma at_index_buffer st :
  buffer_ok st → currentpulse st < 100 →
  ∃ high low, at_index (pulses st) (currentpulse st) = Some (high, low).
Proof.
  intros [Hlen Hcp] Hlt. unfold at_index.
  destruct (Z.ltb_spec (currentpulse st) 0); [lia|].
  destruct (pulses st !! Z.to_nat (currentpulse st)) as [[h l]|] eqn:E; [eauto|].
  apply lookup_ge_None in E. lia.
Qed.

Lemma at_index_full st :
  buffer_ok st → currentpulse st = 100 →
  at_index (pulses st) (currentpulse st) = None.
Proof.
  intros [Hlen Hcp] ->. unfold at_index. cbn.
  apply lookup_ge_None. lia.
Qed.

Lemma checkcode_reset b st :
  buffer_ok st → pos_ok st →
  (checkcode b ;; modify (set_currentpulse 0)) st = Ok tt (timed_out b st).
Proof.
  intros Hbuf Hpos.
  rewrite (bind_Ok _ _ _ _ _ (checkcode_spec b st Hbuf Hpos)). reflexivity.
Qed.

Lemma timed_out_inv b st :
  buffer_ok st → pos_ok st → buffer_ok (timed_out b st) ∧ pos_ok (timed_out b st).
Proof.
  intros [Hlen Hcp] Hpos. unfold timed_out.
  destruct (after_digit_buffer (spec_match (decoded b st)) (printed b st))
    as (Hp & _ & _ & _).
  split.
  - split; cbn; [rewrite Hp; exact Hlen | lia].
  - apply (after_digit_pos (spec_match (decoded b st)) (printed b st)). exact Hpos.
Qed.

Lemma high_stored_inv h st :
  buffer_ok st → buffer_ok (high_stored h st) ∧
  currentpulse (high_stored h st) = currentpulse st ∧
  pos (high_stored h st) = pos st.
Proof.
  intros [Hlen Hcp]. unfold high_stored, buffer_ok.
  destruct (at_index (pulses st) (currentpulse st)) as [[h0 l0]|]; cbn;
    rewrite ?length_insert; tauto.
Qed.

Lemma store_low_after_high h l rest st :
  buffer_ok st → currentpulse st < 100 →
  store_pulse true l (set_pins rest (high_stored h st)) =
    Ok tt (set_pins rest
      (set_pulses (<[Z.to_nat (currentpulse st) := (h, l)]> (pulses st)) st)).
Proof.
  intros Hbuf Hlt.
  destruct (at_index_buffer st Hbuf Hlt) as (h0 & l0 & Hat).
  unfold high_stored. rewrite Hat.
  erewrite store_pulse_ok.
  2:{ cbn [pulses currentpulse set_pulses set_pins]. unfold at_index in *.
      destruct (currentpulse st <? 0); [discriminate|].
      apply list_lookup_insert_eq. apply lookup_lt_Some in Hat. exact Hat. }
  cbn [pulses currentpulse set_pulses set_pins].
  rewrite list_insert_insert_eq. reflexivity.
Qed.

(** What one call of [loop] does in a state whose capture lies in the
    buffer, by the way the two phases end. *)
Lemma loop_cases b st :
  buffer_ok st → pos_ok st →
  loop b st =
    match wait_while true (currentpulse st) 0 (pins st) with
    | None => Starved (set_pins [] st)
    | Some (TimedOut, rest) => Ok tt (timed_out b (set_pins rest st))
    | Some (Edge h, rest) =>
        if currentpulse st =? 100
        then Undefined (PulsesStore 100) (set_pins rest st)
        else
          match wait_while false (currentpulse st) 0 rest with
          | None => Starved (set_pins [] (high_stored h st))
          | Some (TimedOut, rest2) =>
              Ok tt (timed_out b (set_pins rest2 (high_stored h st)))
          | Some (Edge l, rest2) => Ok tt (pair_stored h l (set_pins rest2 st))
          end
    end.
Proof.
  intros Hbuf Hpos. rewrite loop_unfold.
  destruct (wait_while true (currentpulse st) 0 (pins st)) as [[[h|] rest]|];
    [| |reflexivity].
  - destruct (Z.eqb_spec (currentpulse st) 100) as [E|E].
    { rewrite (bind_Undefined _ _ _ _ _
                 (store_pulse_fault false h (set_pins rest st)
                    (at_index_full (set_pins rest st) Hbuf E))).
      cbn [currentpulse set_pins]. rewrite E. reflexivity. }
    assert (currentpulse st < 100) as Hlt by (destruct Hbuf; lia).
    destruct (at_index_buffer st Hbuf Hlt) as (h0 & l0 & Hat).
    rewrite (bind_Ok _ _ _ _ _ (store_pulse_ok false h (set_pins rest st) h0 l0 Hat)).
    change (set_pulses _ (set_pins rest st)) with
      (set_pins rest (set_pulses (<[Z.to_nat (currentpulse st) := (h, l0)]> (pulses st)) st)).
    replace (set_pulses (<[Z.to_nat (currentpulse st) := (h, l0)]> (pulses st)) st)
      with (high_stored h st) by (unfold high_stored; rewrite Hat; reflexivity).
    destruct (high_stored_inv h st Hbuf) as (Hbuf1 & Hcp1 & Hpos1).
    unfold bind at 1, busy_wait at 1. cbn [currentpulse pins set_pins].
    rewrite Hcp1.
    destruct (wait_while false _ 0 rest) as [[[l|] rest2]|]; [| |reflexivity].
    + change (set_pins rest2 (set_pins rest (high_stored h st)))
        with (set_pins rest2 (high_stored h st)).
      rewrite (bind_Ok _ _ _ _ _ (store_low_after_high h l rest2 st Hbuf Hlt)).
      rewrite bind_get. reflexivity.
    + change (set_pins rest2 (set_pins rest (high_stored h st)))
        with (set_pins rest2 (high_stored h st)).
      rewrite checkcode_reset; [reflexivity | exact Hbuf1 |].
      unfold pos_ok in *. cbn [pos set_pins]. rewrite Hpos1. exact Hpos.
  - rewrite checkcode_reset by assumption. reflexivity.
Qed.

Lemma loop_inv b st st' :
  buffer_ok st → pos_ok st → loop b st = Ok tt st' →
  buffer_ok st' ∧ pos_ok st'.
Proof.
  intros Hbuf Hpos. rewrite (loop_cases b st Hbuf Hpos).
  destruct (wait_while true (currentpulse st) 0 (pins st)) as [[[h|] rest]|];
    [| |discriminate].
  - destruct (Z.eqb_spec (currentpulse st) 100) as [E|E]; [discriminate|].
    destruct (high_stored_inv h st Hbuf) as (Hbuf1 & Hcp1 & Hpos1).
    destruct (wait_while false _ 0 rest) as [[[l|] rest2]|]; [| |discriminate].
    + intros H. injection H as <-. destruct Hbuf as [Hlen Hcp].
      split; [split|]; cbn; rewrite ?length_insert; unfold wrap8; try assumption.
      rewrite Z.mod_small; lia.
    + intros H. injection H as <-. apply timed_out_inv.
      * exact Hbuf1.
      * unfold pos_ok in *. cbn [pos set_pins]. rewrite Hpos1. exact Hpos.
  - intros H. injection H as <-.
    apply (timed_out_inv b (set_pins rest st)); assumption.
Qed.

(** Below the capacity every store of [loop] is inside the buffer; at the
    capacity the next pulse is stored behind it. *)
Lemma loop_in_bounds b st f st' :
  buffer_ok st → pos_ok st → currentpulse st < 100 →
  loop b st ≠ Undefined f st'.
Proof.
  intros Hbuf Hpos Hlt. rewrite (loop_cases b st Hbuf Hpos).
  destruct (wait_while true (currentpulse st) 0 (pins st)) as [[[h|] rest]|];
    try discriminate.
  destruct (Z.eqb_spec (currentpulse st) 100) as [E|E]; [lia|].
  destruct (wait_while false _ 0 rest) as [[[l|] rest2]|]; discriminate.
Qed.

Lemma loop_overflow b st h rest :
  buffer_ok st → pos_ok st → currentpulse st = 100 → Z.of_nat h < MAXPULSE →
  pins st = replicate h true ++ false :: rest →
  loop b st = Undefined (PulsesStore 100) (set_pins rest st).
Proof.
  intros Hbuf Hpos Hcp Hh Hpins. rewrite (loop_cases b st Hbuf Hpos), Hpins.
  pose proof (wait_while_edge true (currentpulse st) h 0 rest ltac:(lia) ltac:(lia)) as Hw.
  cbn [negb] in Hw. rewrite Hw, Hcp. reflexivity.
Qed.

(** The scaled duration is the plain product unless a 16 bit [int] wraps. *)
Lemma scaled_exact b d :
  b = ESP32 ∨ 0 <= d <= 3276 → scaled b d = d * RESOLUTION.
Proof.
  intros [-> | Hd]; [reflexivity|].
  destruct b; [|reflexivity]. unfold scaled, RESOLUTION, int_bits.
  apply Z.mod_small. lia.
Qed.

Lemma scaled_wraps : scaled AVR 3277 = 4 ∧ 3277 * RESOLUTION = 65540.
Proof. split; reflexivity. Qed.

(** ** Digits handed to the lock in a row *)

Lemma feed_app l1 l2 st : feed (l1 ++ l2) st = (feed l1 ;; feed l2) st.
Proof.
  revert st. induction l1 as [|n l1 IH]; intros st; [reflexivity|].
  cbn [app feed]. unfold bind in *.
  destruct (check_digit n st) as [[] st1|f st1|st1]; [apply IH|reflexivity..].
Qed.

(** [n] right digits from a position [p] with [p + n < 8]: [n] success
    cues and nothing else. *)
Lemma feed_right_digits n : ∀ st,
  pos_ok st → pos st + Z.of_nat n < 8 →
  feed (take n (drop (Z.to_nat (pos st)) code)) st =
    Ok tt (set_pos (pos st + Z.of_nat n) (set_trace (trace st ++ cues n) st)).
Proof.
  induction n as [|n IH]; intros st Hpos Hlt.
  - rewrite take_0. cbn [feed]. unfold ret, cues. cbn [replicate concat].
    rewrite Z.add_0_r, set_trace_nil. unfold set_pos. rewrite state_eta. reflexivity.
  - destruct (at_index_code (pos st) Hpos) as (c & Hc & _).
    assert (code !! Z.to_nat (pos st) = Some c) as Hc'.
    { unfold at_index in Hc. destruct (pos st <? 0); [discriminate | exact Hc]. }
    rewrite (drop_S _ _ _ Hc'). cbn [take feed].
    rewrite (bind_Ok _ _ _ _ _ (check_digit_right c st Hc ltac:(unfold pos_ok in *; lia))).
    replace (S (Z.to_nat (pos st))) with (Z.to_nat (pos (advanced st)))
      by (unfold pos_ok in Hpos; cbn; lia).
    rewrite IH by (unfold pos_ok in *; cbn; lia).
    unfold advanced, cues, set_pos, set_trace. cbn.
    rewrite <- !app_assoc. cbn [app].
    replace (pos st + 1 + Z.of_nat n) with (pos st + Z.of_nat (S n)) by lia.
    reflexivity.
Qed.

(** ** [getvalue] and [checkcode] on any capture *)

(** [getvalue] changes nothing but the output, whatever the capture. *)
Lemma decode_from_frame b todo : ∀ i c str st r st',
  decode_from b todo i c str st = Ok r st' → ∃ t, st' = set_trace t st.
Proof.
  induction todo as [|todo IH]; intros i c str st r st' H; cbn [decode_from] in H.
  - injection H as _ <-. exists (trace st). unfold set_trace. symmetry. apply state_eta.
  - destruct (c <? 34).
    2:{ injection H as _ <-. exists (trace st). unfold set_trace. symmetry. apply state_eta. }
    rewrite bind_get in H.
    destruct (at_index (pulses st) i) as [[high low]|]; [|discriminate].
    destruct (scaled b low >? 1000); [eapply IH, H|].
    destruct (scaled b high >? 1000); rewrite bind_emit in H;
      apply IH in H as [t ->]; exists t; reflexivity.
Qed.

Lemma match_from_frame tbl : ∀ i str st r st',
  match_from tbl i str st = Ok r st' → ∃ t, st' = set_trace t st.
Proof.
  induction tbl as [|p tbl IH]; intros i str st r st' H; cbn [match_from] in H.
  - injection H as _ <-. exists (trace st). unfold set_trace. symmetry. apply state_eta.
  - destruct (strncmp str (list_ascii_of_string p) 34 =? 0); [|eapply IH, H].
    rewrite bind_emit in H. injection H as _ <-. eexists; reflexivity.
Qed.

Lemma getvalue_frame b st num st' :
  getvalue b st = Ok num st' → ∃ t, st' = set_trace t st.
Proof.
  unfold getvalue. rewrite !bind_get. unfold bind at 1.
  destruct (decode_from b _ 0 0 _ st) as [r st1|f st1|st1] eqn:E; [|discriminate..].
  apply decode_from_frame in E as [t1 ->].
  rewrite !bind_emit. intros H.
  apply match_from_frame in H as [t ->]. exists t. reflexivity.
Qed.

Lemma checkcode_pos b st st' :
  pos_ok st → checkcode b st = Ok tt st' → pos_ok st'.
Proof.
  intros Hpos. unfold checkcode, bind.
  destruct (getvalue b st) as [num st1|f st1|st1] eqn:E; [|discriminate..].
  apply getvalue_frame in E as [t ->].
  assert (pos_ok (set_trace t st)) as Hpos1 by exact Hpos.
  rewrite (check_digit_spec num _ Hpos1). intros H. injection H as <-.
  apply after_digit_pos, Hpos1.
Qed.

(** ** A reachable state *)

Lemma first_pulse_reachable : reachable AVR first_pulse.
Proof.
  apply (reach_loop AVR (final (setup (power_on blank_stack (burst 1))))).
  - apply (reach_setup AVR blank_stack (burst 1)). reflexivity.
  - reflexivity.
Defined.

(** ** A key press from the pin to the lock *)

(** Key 5 pressed after power-on, read by 35 capturing calls of [loop]
    and one that times out: the first digit of the code is accepted. *)
Lemma key_press_accepted :
  ∃ st, sketch AVR 36 (power_on blank_stack (press key5)) = Ok tt st ∧
        pos st = 1 ∧ currentpulse st = 0 ∧ pins st = [] ∧
        trace st =
          [SerialPrint "Ready to decode IR!"; ServoWrite 0] ++
          (bit_event <$> list_ascii_of_string key5) ++
          [SerialPrint (String "010" "");
           SerialPrintBuf (list_ascii_of_string key5) true;
           SerialPrintNum 5] ++ cue true.
Proof.
  eexists. split; [vm_compute; reflexivity|]. repeat split.
Qed.

(** ** Properties of safe-lock.ino *)

(** C1: the capture loop does not keep its stores inside the buffer.  One
    hundred pulse pairs without a timeout fill the buffer; the store for
    pair one hundred and one goes to index 100, behind the last element. *)
Theorem capture_overflow (b : board) (junk : nat → ascii) :
  (∃ st, sketch b 100 (power_on junk (burst 100)) = Ok tt st ∧
         currentpulse st = 100 ∧ length (pulses st) = 100%nat) ∧
  (∃ st, sketch b 101 (power_on junk (burst 101)) = Undefined (PulsesStore 100) st).
Proof.
  split.
  - eexists. split; [vm_compute; reflexivity|]. split; reflexivity.
  - eexists. vm_compute. reflexivity.
Qed.

(** C2: from position 0 the eight digits of the code, handed over one per
    decode, give eight success cues and one latch toggle, which comes
    with the eighth digit and leaves the position at 0; after any
    shorter prefix only success cues have been given and the position is
    the number of digits entered.  Each step of [feed] is what [checkcode]
    does once [getvalue] has decoded the digit. *)
Theorem code_entry_unlocks (st : state) :
  pos st = 0 →
  (∀ k, (k < 8)%nat →
     feed (take k code) st =
       Ok tt (set_pos (Z.of_nat k) (set_trace (trace st ++ cues k) st))) ∧
  feed code st =
    Ok tt (set_trace
             (trace st ++ cues 8 ++
              [SerialPrint "Congratulations!"; ServoWrite (toggled (servopos st))])
             (set_servopos (toggled (servopos st)) (set_pos 0 st))) ∧
  (∀ b num st0 st1, getvalue b st0 = Ok num st1 →
     checkcode b st0 = check_digit num st1).
Proof.
  intros H0.
  assert (Hpre : ∀ k, (k < 8)%nat →
     feed (take k code) st =
       Ok tt (set_pos (Z.of_nat k) (set_trace (trace st ++ cues k) st))).
  { intros k Hk.
    pose proof (feed_right_digits k st) as H. rewrite H0 in H.
    change (Z.to_nat 0) with 0%nat in H. rewrite drop_0 in H.
    apply H; [unfold pos_ok|]; lia. }
  split; [exact Hpre|]. split.
  2:{ intros b num st0 st1 Hget. unfold checkcode. apply bind_Ok, Hget. }
  change code with (take 7 code ++ [0]).
  rewrite feed_app, (bind_Ok _ _ _ _ _ (Hpre 7%nat ltac:(lia))).
  cbn [feed].
  rewrite (bind_Ok _ _ _ _ _
             (check_digit_last (set_pos 7 (set_trace (trace st ++ cues 7) st)) eq_refl)).
  unfold ret, unlocked, cues, set_trace, set_servopos, set_pos. cbn.
  rewrite <- !app_assoc. reflexivity.
Qed.

Lemma code_entry_unlocks_witness :
  pos (power_on blank_stack []) = 0 ∧
  feed code (power_on blank_stack []) =
    Ok tt (set_trace (cues 8 ++ [SerialPrint "Congratulations!"; ServoWrite 180])
             (set_servopos 180 (power_on blank_stack []))).
Proof.
  split; [reflexivity|].
  exact (proj1 (proj2 (code_entry_unlocks (power_on blank_stack []) eq_refl))).
Defined.

(** ** The decoder against the words of the specification *)

(** Where the scaled phases fit 16 bits the tests of the code are the
    tests of the specification. *)
Lemma fits_tests b p :
  fits b p → is_gap b p = gap_in_words p ∧ bit_of b p = bit_in_words p.
Proof.
  intros Hfit. unfold is_gap, bit_of, gap_in_words, bit_in_words.
  assert (scaled b (fst p) = fst p * RESOLUTION ∧
          scaled b (snd p) = snd p * RESOLUTION) as [-> ->]; [|split; reflexivity].
  destruct Hfit as [-> | [Hh Hl]]; [split; reflexivity|].
  destruct b; [|split; reflexivity].
  unfold scaled, int_bits. split; apply Z.mod_small; assumption.
Qed.

Lemma spec_bits_in_words b ps :
  Forall (fits b) ps → spec_bits b ps = bits_in_words ps.
Proof.
  intros Hall. unfold spec_bits, bits_in_words. f_equal.
  induction Hall as [|p ps Hp _ IH]; [reflexivity|].
  destruct (fits_tests b p Hp) as [Hg Hb].
  rewrite !filter_cons, Hg.
  destruct (decide (gap_in_words p = false)); [|exact IH].
  cbn [fmap list_fmap]. rewrite Hb. f_equal. exact IH.
Qed.

(** C3: the decoder follows the claim only while the scaled phases fit 16
    bits.  Where they do (always with a 32 bit [int]; up to 3276 polls with
    a 16 bit [int]) the first loop of [getvalue] writes into [str], and
    prints, the bits of the claim: no bit for a pair whose low phase times
    the resolution exceeds 1000, '1' for any other pair whose high phase
    times the resolution exceeds 1000 and '0' otherwise, 34 bits at most.
    With a 16 bit [int] the product wraps: a high phase of 3277 polls,
    65540 microseconds, is decoded as '0', and a pair with a low phase of
    3277 polls is not passed over.  The first of the two captures is what
    the pin gives when a short burst comes 3277 polls after power-on. *)
Theorem decode_wraps_long_phases :
  (∀ b st, buffer_ok st → Forall (fits b) (captured st) →
     let bits := bits_in_words (captured st) in
     let str := stack st <$> seq 0 34 in
     (length bits <= 34)%nat ∧
     decode_from b (Z.to_nat (currentpulse st)) 0 0 str st =
       Ok (Z.of_nat (length bits), bits ++ drop (length bits) str)
          (set_trace (trace st ++ (bit_event <$> bits)) st)) ∧
  (bits_in_words (captured long_high) = ["1"%char] ∧
   decode_from AVR 1 0 0 (blank_stack <$> seq 0 34) long_high =
     Ok (1, "0"%char :: replicate 33 zero)
        (set_trace [bit_event "0"] long_high)) ∧
  (bits_in_words (captured long_low) = [] ∧
   decode_from AVR 1 0 0 (blank_stack <$> seq 0 34) long_low =
     Ok (1, "1"%char :: replicate 33 zero)
        (set_trace [bit_event "1"] long_low)) ∧
  (∃ st, sketch AVR 2 (power_on blank_stack late_burst) = Ok tt st ∧
         at_index (pulses st) 0 = Some (3277, 28) ∧
         trace st =
           [SerialPrint "Ready to decode IR!"; ServoWrite 0; bit_event "0";
            SerialPrint (String "010" ""); SerialPrintBuf ["0"%char] false] ++
           cue false).
Proof.
  split; [|split; [|split]].
  - intros b st Hbuf Hfit bits str. subst bits.
    rewrite <- (spec_bits_in_words b (captured st) Hfit).
    split; [apply spec_bits_length|].
    apply (decode_from_captured b st Hbuf).
  - split; vm_compute; reflexivity.
  - split; vm_compute; reflexivity.
  - eexists. split; [vm_compute; reflexivity|]. split; reflexivity.
Qed.

Lemma decode_wraps_long_phases_witness :
  buffer_ok (key_capture blank_stack key5) ∧
  Forall (fits AVR) (captured (key_capture blank_stack key5)) ∧
  bits_in_words (captured (key_capture blank_stack key5)) = list_ascii_of_string key5 ∧
  decode_from AVR 35 0 0 (blank_stack <$> seq 0 34) (key_capture blank_stack key5) =
    Ok (34, list_ascii_of_string key5)
       (set_trace (bit_event <$> list_ascii_of_string key5)
          (key_capture blank_stack key5)).
Proof.
  assert (buffer_ok (key_capture blank_stack key5)) as Hb.
  { split; [reflexivity | cbn; lia]. }
  assert (Forall (fits AVR) (captured (key_capture blank_stack key5))) as Hf.
  { apply Forall_forall. intros p Hp. right.
    assert (forallb (fun q => (0 <=? fst q * RESOLUTION) && (fst q * RESOLUTION <? 2 ^ 16) &&
                              (0 <=? snd q * RESOLUTION) && (snd q * RESOLUTION <? 2 ^ 16))
              (captured (key_capture blank_stack key5)) = true) as Hall
      by (vm_compute; reflexivity).
    rewrite forallb_forall in Hall. apply list_elem_of_In in Hp.
    specialize (Hall p Hp).
    rewrite !andb_true_iff in Hall. destruct Hall as [[[H1 H2] H3] H4].
    apply Z.leb_le in H1, H3. apply Z.ltb_lt in H2, H4. lia. }
  split; [exact Hb|]. split; [exact Hf|]. split; [vm_compute; reflexivity|].
  exact (proj2 (proj1 decode_wraps_long_phases AVR (key_capture blank_stack key5) Hb Hf)).
Defined.

(** C4: the second loop of [getvalue] returns the index of the first table
    pattern whose 34 characters equal the 34 bytes of [str], and -1 when
    there is none; a [str] equal to entry [i] of the table gives [i].
    This is the value [getvalue] returns for the [str] it has decoded. *)
Theorem match_table_spec (str : list ascii) (st : state) :
  match_from numstrs 0 str st =
    Ok (spec_match str)
       (if spec_match str =? -1 then st
        else set_trace (trace st ++ [SerialPrintNum (spec_match str)]) st) ∧
  (∀ (i : nat) p, numstrs !! i = Some p →
     take 34 str = list_ascii_of_string p → spec_match str = Z.of_nat i) ∧
  ((∀ p, p ∈ numstrs → take 34 str ≠ list_ascii_of_string p) →
     spec_match str = -1) ∧
  (∀ b st0, buffer_ok st0 → str = decoded b st0 →
     ∃ st', getvalue b st0 = Ok (spec_match str) st').
Proof.
  split; [|split; [|split]].
  - rewrite (match_from_spec numstrs 0 str st numstrs_patterns).
    unfold spec_match. destruct (list_find _ numstrs) as [[j q]|]; cbn [Z.add].
    + destruct (Z.eqb_spec (Z.of_nat j) (-1)); [lia | reflexivity].
    + reflexivity.
  - intros i p Hi Heq. unfold spec_match.
    destruct (list_find _ numstrs) as [[j q]|] eqn:E.
    + apply list_find_Some in E as (Hj & Hq & Hfirst).
      f_equal. rewrite Heq in Hq.
      assert (q = p) as ->.
      { apply (f_equal string_of_list_ascii) in Hq.
        rewrite !string_of_list_ascii_of_string in Hq. exact Hq. }
      eapply NoDup_lookup; [|exact Hj|exact Hi].
      exact numstrs_NoDup.
    + apply list_find_None in E. rewrite Forall_forall in E.
      exfalso. apply (E p); [|congruence].
      apply list_elem_of_lookup. eauto.
  - apply spec_match_none.
  - intros b st0 Hbuf ->. eexists. apply (getvalue_spec b st0 Hbuf).
Qed.

Lemma match_table_spec_witness :
  numstrs !! 5%nat = Some key5 ∧
  match_from numstrs 0 (list_ascii_of_string key5) (power_on blank_stack []) =
    Ok 5 (set_trace [SerialPrintNum 5] (power_on blank_stack [])).
Proof.
  split; [reflexivity|].
  pose proof (match_table_spec (list_ascii_of_string key5) (power_on blank_stack []))
    as (Hrun & Hentry & _).
  rewrite (Hentry 5%nat key5 eq_refl eq_refl) in Hrun. exact Hrun.
Defined.

(** C5: a decode shorter than 34 bits does not always give -1.  One
    captured pair decodes to the single bit '1'; with the remaining bytes
    of [str] left over from a decode of key 5, [getvalue] answers 5. *)
Theorem short_decode_matches (b : board) :
  buffer_ok short_capture ∧
  spec_bits b (captured short_capture) = ["1"%char] ∧
  ∃ st, getvalue b short_capture = Ok 5 st.
Proof.
  split; [|split].
  - split; [reflexivity | cbn; lia].
  - destruct b; vm_compute; reflexivity.
  - eexists. destruct b; vm_compute; reflexivity.
Qed.

(** C6: at every position, a decode result that is -1 or differs from the
    expected digit puts the position back to 0 and gives the failure cue,
    the same state in both cases; the right digit gives the success cue
    and moves the position on (from 7 it completes the code), and a
    position that moved on by one was moved by the right digit. *)
Theorem wrong_digit_resets (num : Z) (st : state) :
  pos_ok st →
  ((num = -1 ∨ at_index code (pos st) ≠ Some num) →
     check_digit num st =
       Ok tt (set_pos 0 (set_trace (trace st ++ cue false) st))) ∧
  (at_index code (pos st) = Some num →
     ∃ st', check_digit num st = Ok tt st' ∧
            pos st' = (pos st + 1) mod 8 ∧
            ∃ more, trace st' = trace st ++ cue true ++ more) ∧
  (∀ st', check_digit num st = Ok tt st' → pos st' = pos st + 1 →
     at_index code (pos st) = Some num) ∧
  (∀ b st0, getvalue b st0 = Ok num st → checkcode b st0 = check_digit num st).
Proof.
  intros Hpos.
  destruct (at_index_code (pos st) Hpos) as (c & Hc & Hd).
  assert (Hrej : (num = -1 ∨ at_index code (pos st) ≠ Some num) →
                 check_digit num st = Ok tt (rejected st)).
  { intros [-> | Hne]; [apply check_digit_no_match|].
    apply (check_digit_wrong num c st Hc). congruence. }
  split; [exact Hrej|]. split; [|split].
  - intros Hnum. rewrite Hnum in Hc. injection Hc as ->.
    destruct (Z.eq_dec (pos st) 7) as [E7|E7].
    + assert (c = 0) as ->
        by (rewrite E7 in Hnum; change (at_index code 7) with (Some 0) in Hnum; congruence).
      exists (unlocked st). split; [apply check_digit_last, E7|].
      split; [cbn; rewrite E7; reflexivity|].
      eexists. cbn. reflexivity.
    + exists (advanced st). split; [apply check_digit_right; assumption|].
      split; [cbn; unfold pos_ok in Hpos; rewrite Z.mod_small; lia|].
      exists []. unfold advanced. cbn [trace set_pos set_trace].
      rewrite app_nil_r. reflexivity.
  - intros st' Hrun Hstep.
    destruct (Z.eq_dec num c) as [->|Hne]; [exact Hc|].
    rewrite Hrej in Hrun by (right; congruence).
    injection Hrun as <-. cbn in Hstep. unfold pos_ok in Hpos. lia.
  - intros b st0 Hget. unfold checkcode. apply bind_Ok, Hget.
Qed.

Lemma wrong_digit_resets_witness :
  pos_ok mid_entry ∧
  check_digit 4 mid_entry = Ok tt (set_pos 0 (set_trace (cue false) mid_entry)) ∧
  check_digit (-1) mid_entry = Ok tt (set_pos 0 (set_trace (cue false) mid_entry)).
Proof.
  assert (pos_ok mid_entry) as H by (unfold pos_ok; cbn; lia).
  split; [exact H|]. split.
  - apply (proj1 (wrong_digit_resets 4 mid_entry H)). right. discriminate.
  - apply (proj1 (wrong_digit_resets (-1) mid_entry H)). left. reflexivity.
Defined.

(** C7: a call of [loop] that starts with no pulse captured never
    decodes: however it ends, the position, the latch and the output are
    what they were.  A phase longer than the timeout is captured like any
    other, its count wrapped to 16 bits. *)
Theorem idle_timeout_ignored (b : board) (st : state) :
  currentpulse st = 0 →
  lock_untouched st (final (loop b st)) ∧
  (∀ n m rest high low,
     pulses st !! 0%nat = Some (high, low) →
     pins st = replicate n true ++ false :: replicate m false ++ true :: rest →
     loop b st =
       Ok tt (pair_stored (wrap16 (Z.of_nat n)) (wrap16 (Z.of_nat m))
                (set_pins rest st))).
Proof.
  intros Hcp. split.
  - rewrite loop_unfold, Hcp.
    destruct (wait_while true 0 0 (pins st)) as [[w rest]|] eqn:Ew;
      [|unfold lock_untouched; cbn; tauto].
    destruct (wait_while_idle _ _ _ _ _ Ew) as [h ->].
    unfold bind at 1, store_pulse at 1. rewrite !bind_get.
    cbn [pulses currentpulse set_pins]. rewrite Hcp.
    destruct (at_index (pulses st) 0) as [[h0 l0]|];
      [|unfold lock_untouched; cbn; tauto].
    unfold modify at 1. unfold bind at 1, busy_wait at 1.
    cbn [pulses currentpulse pins set_pins set_pulses]. rewrite Hcp.
    destruct (wait_while false 0 0 rest) as [[w2 rest2]|] eqn:Ew2;
      [|unfold lock_untouched; cbn; tauto].
    destruct (wait_while_idle _ _ _ _ _ Ew2) as [l ->].
    unfold bind at 1, store_pulse at 1. rewrite !bind_get.
    cbn [pulses currentpulse set_pins set_pulses]. rewrite Hcp.
    destruct (at_index _ 0) as [[h1 l1]|]; unfold lock_untouched; cbn; tauto.
  - intros n m rest high low H0 Hpins.
    rewrite loop_unfold, Hcp, Hpins.
    rewrite wait_while_idle_edge by lia. rewrite Z.add_0_l.
    assert (at_index (pulses (set_pins (replicate m false ++ true :: rest) st))
              (currentpulse (set_pins (replicate m false ++ true :: rest) st)) =
            Some (high, low)) as Hat.
    { cbn [pulses currentpulse set_pins]. rewrite Hcp. exact H0. }
    rewrite (bind_Ok _ _ _ _ _ (store_pulse_ok false _ _ high low Hat)).
    unfold bind at 1, busy_wait at 1.
    cbn [pulses currentpulse pins set_pins set_pulses]. rewrite Hcp.
    pose proof (wait_while_idle_edge false m 0 rest ltac:(lia)) as Hlow.
    cbn [negb] in Hlow. rewrite Hlow, Z.add_0_l.
    erewrite bind_Ok.
    2:{ apply store_pulse_ok with (high := wrap16 (Z.of_nat n)) (low := low).
        cbn [pulses currentpulse pins set_pins set_pulses]. rewrite Hcp.
        apply list_lookup_insert_eq. apply lookup_lt_Some in H0. exact H0. }
    rewrite bind_get. unfold modify, pair_stored.
    cbn [pulses currentpulse pins set_pins set_pulses set_currentpulse
         servopos pos stack trace].
    rewrite Hcp, list_insert_insert_eq. reflexivity.
Qed.

Lemma idle_timeout_ignored_witness :
  currentpulse idle_line = 0 ∧
  lock_untouched idle_line (final (loop AVR idle_line)) ∧
  loop AVR idle_line =
    Ok tt (pair_stored (wrap16 70000) 0 (set_pins [] idle_line)).
Proof.
  split; [reflexivity|]. split.
  - exact (proj1 (idle_timeout_ignored AVR idle_line eq_refl)).
  - exact (proj2 (idle_timeout_ignored AVR idle_line eq_refl)
             (Z.to_nat 70000) 0%nat [] 0 0 eq_refl eq_refl).
Defined.

(** C8: with at least one pulse captured, a high phase of [MAXPULSE]
    polls makes [loop] call [checkcode] on the capture and set the capture
    index to 0; so does a low phase of [MAXPULSE] polls after a shorter
    high phase, whose count is stored first. *)
Theorem timeout_hands_over (b : board) (st : state) (h : nat) (rest : list bool) :
  buffer_ok st → pos_ok st → currentpulse st ≠ 0 →
  (pins st = replicate (Z.to_nat MAXPULSE) true ++ rest →
     ∃ st', checkcode b (set_pins rest st) = Ok tt st' ∧
            loop b st = Ok tt (set_currentpulse 0 st')) ∧
  (currentpulse st < 100 → Z.of_nat h < MAXPULSE →
   pins st = replicate h true ++ false :: replicate (Z.to_nat MAXPULSE) false ++ rest →
     ∃ st', checkcode b (set_pins rest (high_stored (Z.of_nat h) st)) = Ok tt st' ∧
            captured (high_stored (Z.of_nat h) st) = captured st ∧
            loop b st = Ok tt (set_currentpulse 0 st')).
Proof.
  intros Hbuf Hpos Hcp. split.
  - intros Hpins.
    assert (buffer_ok (set_pins rest st)) as Hbuf' by exact Hbuf.
    assert (pos_ok (set_pins rest st)) as Hpos' by exact Hpos.
    eexists. split; [apply (checkcode_spec b _ Hbuf' Hpos')|].
    rewrite loop_unfold, Hpins.
    rewrite (wait_while_timeout true _ (Z.to_nat MAXPULSE) 0 rest Hcp);
      [|lia|unfold MAXPULSE; lia|unfold MAXPULSE; lia].
    rewrite (checkcode_reset b _ Hbuf' Hpos'). reflexivity.
  - intros Hlt Hh Hpins.
    destruct (high_stored_inv (Z.of_nat h) st Hbuf) as (Hbuf1 & Hcp1 & Hpos1).
    assert (buffer_ok (set_pins rest (high_stored (Z.of_nat h) st))) as Hbuf' by exact Hbuf1.
    assert (pos_ok (set_pins rest (high_stored (Z.of_nat h) st))) as Hpos'
      by (unfold pos_ok in *; cbn [pos set_pins]; rewrite Hpos1; exact Hpos).
    eexists. split; [apply (checkcode_spec b _ Hbuf' Hpos')|]. split.
    + unfold captured. rewrite Hcp1. unfold high_stored.
      destruct (at_index (pulses st) (currentpulse st)) as [[h0 l0]|]; [|reflexivity].
      cbn [pulses set_pulses]. apply take_insert_ge. lia.
    + rewrite loop_unfold, Hpins.
      pose proof (wait_while_edge true (currentpulse st) h 0
                    (replicate (Z.to_nat MAXPULSE) false ++ rest) ltac:(lia) ltac:(lia)) as Hhigh.
      cbn [negb] in Hhigh. rewrite Hhigh, Z.add_0_l.
      destruct (at_index_buffer st Hbuf Hlt) as (h0 & l0 & Hat).
      rewrite (bind_Ok _ _ _ _ _
                 (store_pulse_ok false (Z.of_nat h) (set_pins _ st) h0 l0 Hat)).
      unfold bind at 1, busy_wait at 1.
      cbn [pulses currentpulse pins set_pins set_pulses].
      rewrite (wait_while_timeout false _ (Z.to_nat MAXPULSE) 0 rest Hcp);
        [|lia|unfold MAXPULSE; lia|unfold MAXPULSE; lia].
      replace (set_pins rest (set_pulses _ (set_pins _ st)))
        with (set_pins rest (high_stored (Z.of_nat h) st))
        by (unfold high_stored; rewrite Hat; reflexivity).
      rewrite (checkcode_reset b _ Hbuf' Hpos'). reflexivity.
Qed.

Lemma timeout_hands_over_witness :
  buffer_ok key5_then_silence ∧ pos_ok key5_then_silence ∧
  currentpulse key5_then_silence ≠ 0 ∧
  ∃ st', checkcode AVR (set_pins [false; true] key5_then_silence) = Ok tt st' ∧
         loop AVR key5_then_silence = Ok tt (set_currentpulse 0 st').
Proof.
  assert (buffer_ok key5_then_silence) as Hb by (split; [reflexivity | cbn; lia]).
  assert (pos_ok key5_then_silence) as Hp by (unfold pos_ok; cbn; lia).
  assert (currentpulse key5_then_silence ≠ 0) as Hc by discriminate.
  split; [exact Hb|]. split; [exact Hp|]. split; [exact Hc|].
  exact (proj1 (timeout_hands_over AVR key5_then_silence 0 [false; true] Hb Hp Hc) eq_refl).
Defined.

(** C9: in every state the sketch reaches from power-on, where the
    position is 0, the position is one of 0..7, and it is again after
    every call of [checkcode] that completes from that position, whatever
    was captured. *)
Theorem position_in_range (b : board) (st : state) :
  reachable b st →
  pos_ok st ∧
  (∀ st1 st', pos st1 = pos st → checkcode b st1 = Ok tt st' → pos_ok st').
Proof.
  intros Hreach.
  assert (pos_ok st ∧ buffer_ok st) as [Hpos _].
  { induction Hreach as [junk samples st Hsetup | st st' _ [IHp IHb] Hloop | st junk _ IH].
    - unfold setup in Hsetup. rewrite bind_emit, bind_get in Hsetup.
      injection Hsetup as <-. split.
      + unfold pos_ok. cbn. lia.
      + split; [reflexivity | cbn; lia].
    - destruct (loop_inv b st st' IHb IHp Hloop). tauto.
    - exact IH. }
  split; [exact Hpos|].
  intros st1 st' Hsame Hrun. apply (checkcode_pos b st1 st'); [|exact Hrun].
  unfold pos_ok in *. rewrite Hsame. exact Hpos.
Qed.

Lemma position_in_range_witness :
  reachable AVR first_pulse ∧ pos_ok first_pulse.
Proof.
  split; [exact first_pulse_reachable|].
  exact (proj1 (position_in_range AVR first_pulse first_pulse_reachable)).
Defined.

(** ** Further properties of safe-lock.ino *)

Lemma wait_while_timeout_inv level cp : ∀ samples c rest,
  0 <= c < MAXPULSE →
  wait_while level cp c samples = Some (TimedOut, rest) →
  cp ≠ 0 ∧ samples = replicate (Z.to_nat (MAXPULSE - c)) level ++ rest.
Proof.
  unfold MAXPULSE.
  induction samples as [|s samples IH]; intros c rest Hc H; [discriminate|].
  cbn [wait_while] in H. destruct (Bool.eqb_spec s level) as [->|Hs]; [|discriminate].
  unfold wrap16, MAXPULSE in H. rewrite Z.mod_small in H by lia.
  replace (Z.to_nat (65000 - c)) with (S (Z.to_nat (65000 - (c + 1)))) by lia.
  cbn [replicate app].
  destruct (Z.geb_spec (c + 1) 65000) as [Hge|Hlt]; cbn [andb] in H.
  - destruct (Z.eqb_spec cp 0) as [E|E]; cbn [negb] in H.
    + rewrite E in H. apply wait_while_idle in H as [k Hk]. discriminate.
    + injection H as <-. split; [exact E|].
      replace (65000 - (c + 1)) with 0 by lia. reflexivity.
  - apply IH in H as [Hcp ->]; [|lia]. split; [exact Hcp | reflexivity].
Qed.

Lemma wait_while_edge_inv level cp : ∀ samples c n rest,
  cp ≠ 0 → 0 <= c < MAXPULSE →
  wait_while level cp c samples = Some (Edge n, rest) →
  c <= n < MAXPULSE ∧
  samples = replicate (Z.to_nat (n - c)) level ++ negb level :: rest.
Proof.
  unfold MAXPULSE.
  induction samples as [|s samples IH]; intros c n rest Hcp Hc H; [discriminate|].
  cbn [wait_while] in H. destruct (Bool.eqb_spec s level) as [->|Hs].
  - unfold wrap16, MAXPULSE in H. rewrite Z.mod_small in H by lia.
    apply Z.eqb_neq in Hcp as Hcp'. rewrite Hcp' in H. cbn [negb] in H.
    rewrite andb_true_r in H.
    destruct (Z.geb_spec (c + 1) 65000) as [Hge|Hlt]; [discriminate|].
    apply IH in H as [Hn ->]; [|exact Hcp|lia]. split; [lia|].
    replace (Z.to_nat (n - c)) with (S (Z.to_nat (n - (c + 1)))) by lia.
    reflexivity.
  - injection H as <- <-. split; [lia|].
    rewrite Z.sub_diag. cbn [Z.to_nat replicate app].
    f_equal. destruct s, level; try reflexivity; contradiction.
Qed.

(** X1: with a pulse captured, a busy-wait loop times out exactly when the
    pin keeps its level for [MAXPULSE] polls, and ends at an edge after
    [n] polls exactly when [n < MAXPULSE] polls at the level are followed by
    one at the other level. *)
Theorem busy_wait_spec (level : bool) (cp : Z) (samples rest : list bool) (n : Z) :
  cp ≠ 0 →
  (wait_while level cp 0 samples = Some (TimedOut, rest) ↔
     samples = replicate (Z.to_nat MAXPULSE) level ++ rest) ∧
  (wait_while level cp 0 samples = Some (Edge n, rest) ↔
     0 <= n < MAXPULSE ∧
     samples = replicate (Z.to_nat n) level ++ negb level :: rest).
Proof.
  intros Hcp. split; split.
  - intros H. apply wait_while_timeout_inv in H as [_ H]; [|unfold MAXPULSE; lia].
    rewrite Z.sub_0_r in H. exact H.
  - intros ->. apply wait_while_timeout; unfold MAXPULSE; lia.
  - intros H. apply wait_while_edge_inv in H as [Hn H];
      [|exact Hcp|unfold MAXPULSE; lia].
    rewrite Z.sub_0_r in H. split; [lia | exact H].
  - intros [Hn ->].
    rewrite (wait_while_edge level cp (Z.to_nat n) 0 rest) by lia.
    rewrite Z.add_0_l, Z2Nat.id by lia. reflexivity.
Qed.

Lemma busy_wait_spec_witness :
  1 ≠ 0 ∧
  wait_while true 1 0 [true; true; false; true] = Some (Edge 2, [true]).
Proof.
  split; [discriminate|].
  apply (proj2 (busy_wait_spec true 1 [true; true; false; true] [true] 2 ltac:(discriminate))).
  split; [unfold MAXPULSE; lia | reflexivity].
Defined.

Lemma loop_captures b st h l rest :
  buffer_ok st → pos_ok st → currentpulse st < 100 → short_phases (h, l) →
  pins st = pair_samples (h, l) ++ rest →
  loop b st = Ok tt (pair_stored h l (set_pins rest st)).
Proof.
  intros Hbuf Hpos Hlt [Hh Hl] Hpins. cbn [fst snd] in Hh, Hl.
  rewrite (loop_cases b st Hbuf Hpos), Hpins. unfold pair_samples. cbn [fst snd].
  replace (replicate (S (Z.to_nat l)) false)
    with (false :: replicate (Z.to_nat l) false) by reflexivity.
  rewrite <- !app_assoc, <- !app_comm_cons, app_nil_l.
  pose proof (wait_while_edge true (currentpulse st) (Z.to_nat h) 0
                (replicate (Z.to_nat l) false ++ true :: rest) ltac:(lia) ltac:(lia)) as Hw.
  cbn [negb] in Hw. rewrite Hw. clear Hw.
  destruct (Z.eqb_spec (currentpulse st) 100) as [E|_]; [lia|].
  pose proof (wait_while_edge false (currentpulse st) (Z.to_nat l) 0 rest
                ltac:(lia) ltac:(lia)) as Hw.
  cbn [negb] in Hw. rewrite Hw.
  rewrite !Z.add_0_l, !Z2Nat.id by lia. reflexivity.
Qed.

Lemma captured_pair_stored h l st :
  buffer_ok st → currentpulse st < 100 →
  captured (pair_stored h l st) = captured st ++ [(h, l)].
Proof.
  intros [Hlen Hcp] Hlt. unfold captured, pair_stored, wrap8.
  cbn [pulses currentpulse set_currentpulse set_pulses].
  rewrite Z.mod_small by lia.
  replace (Z.to_nat (currentpulse st + 1)) with (S (Z.to_nat (currentpulse st))) by lia.
  erewrite take_S_r by (apply list_lookup_insert_eq; lia).
  rewrite take_insert_ge by lia. reflexivity.
Qed.

Lemma pair_stored_inv h l st :
  buffer_ok st → currentpulse st < 100 →
  buffer_ok (pair_stored h l st) ∧
  currentpulse (pair_stored h l st) = currentpulse st + 1.
Proof.
  intros [Hlen Hcp] Hlt. unfold pair_stored, buffer_ok, wrap8.
  cbn [pulses currentpulse set_currentpulse set_pulses].
  rewrite Z.mod_small, length_insert by lia. lia.
Qed.

(** X2: pulse pairs with phases shorter than the timeout, arriving while
    there is room in the buffer, are captured as they are: one call of
    [loop] per pair appends the pairs to the capture in order and touches
    nothing of the lock. *)
Theorem run_captures (b : board) (ps : list (Z * Z)) : ∀ (st : state) (rest : list bool),
  buffer_ok st → pos_ok st →
  currentpulse st + Z.of_nat (length ps) <= 100 →
  Forall short_phases ps →
  pins st = concat (pair_samples <$> ps) ++ rest →
  ∃ st', run b (length ps) st = Ok tt st' ∧
         captured st' = captured st ++ ps ∧
         currentpulse st' = currentpulse st + Z.of_nat (length ps) ∧
         pins st' = rest ∧ stack st' = stack st ∧
         length (pulses st') = length (pulses st) ∧
         lock_untouched st st'.
Proof.
  induction ps as [|[h l] ps IH]; intros st rest Hbuf Hpos Hroom Hall Hpins.
  - exists st. cbn [length run fmap list_fmap concat app] in *.
    rewrite app_nil_r, Z.add_0_r. unfold lock_untouched. tauto.
  - apply Forall_cons in Hall as [Hp Hall].
    cbn [length] in Hroom. cbn [fmap list_fmap concat] in Hpins.
    rewrite <- app_assoc in Hpins.
    assert (currentpulse st < 100) as Hlt by lia.
    pose proof (loop_captures b st h l _ Hbuf Hpos Hlt Hp Hpins) as Hloop.
    set (st1 := pair_stored h l (set_pins (concat (pair_samples <$> ps) ++ rest) st)) in *.
    assert (buffer_ok (set_pins (concat (pair_samples <$> ps) ++ rest) st)) as Hbuf0
      by exact Hbuf.
    destruct (pair_stored_inv h l _ Hbuf0 Hlt) as [Hbuf1 Hcp1].
    fold st1 in Hbuf1, Hcp1. cbn [currentpulse set_pins] in Hcp1.
    destruct (IH st1 rest Hbuf1) as (st' & Hrun & Hcap & Hcp & Hrest & Hstack & Hlen & Hlock).
    + exact Hpos.
    + rewrite Hcp1. lia.
    + exact Hall.
    + reflexivity.
    + exists st'. cbn [length run]. rewrite (bind_Ok _ _ _ _ _ Hloop).
      split; [exact Hrun|]. rewrite Hcap, Hcp, Hcp1, Hstack, Hlen.
      unfold st1 at 1. rewrite (captured_pair_stored h l _ Hbuf0 Hlt).
      rewrite <- app_assoc. cbn [app].
      split; [reflexivity|]. split; [lia|]. split; [exact Hrest|].
      split; [reflexivity|]. split.
      * unfold st1, pair_stored. cbn. apply length_insert.
      * exact Hlock.
Qed.

Lemma run_captures_witness :
  buffer_ok (power_on blank_stack (concat (pair_samples <$> frame key5))) ∧
  Forall short_phases (frame key5) ∧
  ∃ st', run AVR 35 (power_on blank_stack (concat (pair_samples <$> frame key5))) = Ok tt st' ∧
         captured st' = frame key5.
Proof.
  assert (buffer_ok (power_on blank_stack (concat (pair_samples <$> frame key5)))) as Hb
    by (split; [reflexivity | cbn; lia]).
  assert (Forall short_phases (frame key5)) as Hall.
  { unfold frame, key5. cbn [list_ascii_of_string fmap list_fmap pair_of_bit Ascii.eqb Bool.eqb].
    repeat (apply Forall_cons; split; [unfold short_phases, MAXPULSE; cbn; lia|]).
    apply Forall_nil. exact I. }
  split; [exact Hb|]. split; [exact Hall|].
  destruct (run_captures AVR (frame key5) _ [] Hb ltac:(unfold pos_ok; cbn; lia)
              ltac:(cbn; lia) Hall ltac:(symmetry; apply app_nil_r))
    as (st' & Hrun & Hcap & _).
  exists st'. split; [exact Hrun | exact Hcap].
Defined.

Lemma run_app b n : ∀ m st, run b (n + m) st = (run b n ;; run b m) st.
Proof.
  induction n as [|n IH]; intros m st; [reflexivity|].
  cbn [Nat.add run]. unfold bind in *.
  destruct (loop b st) as [[] st1|f st1|st1]; [apply IH | reflexivity..].
Qed.

Lemma scaled_small b d : 0 <= d <= 3276 → scaled b d = d * RESOLUTION.
Proof. intros H. apply scaled_exact. right. exact H. Qed.

Lemma spec_bits_frame b p :
  (∀ c, c ∈ list_ascii_of_string p → c = "0"%char ∨ c = "1"%char) →
  (length (list_ascii_of_string p) <= 34)%nat →
  spec_bits b (frame p) = list_ascii_of_string p.
Proof.
  intros Hbin Hlen. unfold spec_bits, frame.
  rewrite filter_cons.
  assert (is_gap b (225, 450) = true) as Hhead.
  { unfold is_gap. cbn [snd]. rewrite (scaled_small b 450) by lia. reflexivity. }
  rewrite decide_False by (rewrite Hhead; discriminate).
  assert (Hmap : ∀ l : list ascii, (∀ c, c ∈ l → c = "0"%char ∨ c = "1"%char) →
            bit_of b <$> filter (fun q => is_gap b q = false) (pair_of_bit <$> l) = l).
  { induction l as [|c l IH]; intros Hl; [reflexivity|].
    assert (c = "0"%char ∨ c = "1"%char) as Hc by (apply Hl; left).
    cbn [fmap list_fmap]. rewrite filter_cons.
    assert (is_gap b (pair_of_bit c) = false) as Hg.
    { unfold is_gap. destruct Hc as [-> | ->]; cbn [pair_of_bit Ascii.eqb Bool.eqb snd];
        rewrite (scaled_small b 28) by lia; reflexivity. }
    rewrite decide_True by exact Hg. cbn [fmap list_fmap].
    f_equal.
    - unfold bit_of. destruct Hc as [-> | ->]; cbn [pair_of_bit Ascii.eqb Bool.eqb fst].
      + rewrite (scaled_small b 28) by lia. reflexivity.
      + rewrite (scaled_small b 84) by lia. reflexivity.
    - apply IH. intros c' Hc'. apply Hl. right. exact Hc'. }
  rewrite (Hmap _ Hbin). apply take_ge. exact Hlen.
Qed.

Lemma spec_match_entry str (i : nat) p :
  numstrs !! i = Some p → take 34 str = list_ascii_of_string p →
  spec_match str = Z.of_nat i.
Proof.
  intros Hi Heq. unfold spec_match.
  destruct (list_find _ numstrs) as [[j q]|] eqn:E.
  - apply list_find_Some in E as (Hj & Hq & _).
    f_equal. rewrite Heq in Hq.
    assert (q = p) as ->.
    { apply (f_equal string_of_list_ascii) in Hq.
      rewrite !string_of_list_ascii_of_string in Hq. exact Hq. }
    eapply NoDup_lookup; [exact numstrs_NoDup | exact Hj | exact Hi].
  - apply list_find_None in E. rewrite Forall_forall in E.
    exfalso. apply (E p); [|congruence].
    apply list_elem_of_lookup. eauto.
Qed.

Lemma frame_short_phases p :
  (∀ c, c ∈ list_ascii_of_string p → c = "0"%char ∨ c = "1"%char) →
  Forall short_phases (frame p).
Proof.
  intros Hbin. unfold frame. apply Forall_cons. split.
  - unfold short_phases, MAXPULSE. cbn. lia.
  - apply Forall_fmap, Forall_forall. intros c Hc.
    destruct (Hbin c Hc) as [-> | ->]; unfold short_phases, MAXPULSE; cbn; lia.
Qed.

(** X3: every key of the table is read back from the pin: after the 35
    pulse pairs of key [i] and a silence of [MAXPULSE] polls, 36 calls of
    [loop] have captured the pairs, [getvalue] has decoded them to [i],
    whatever the stack memory held, and [checkcode] has handled digit [i]. *)
Theorem key_press_decoded (b : board) (i : nat) (p : string) (st : state) (rest : list bool) :
  numstrs !! i = Some p →
  buffer_ok st → pos_ok st → currentpulse st = 0 →
  pins st = press p ++ rest →
  ∃ st1 st2,
    captured st1 = frame p ∧ lock_untouched st st1 ∧
    getvalue b st1 = Ok (Z.of_nat i) st2 ∧
    run b 36 st = Ok tt (set_currentpulse 0 (after_digit (Z.of_nat i) st2)).
Proof.
  intros Hi Hbuf Hpos Hcp Hpins.
  assert (p ∈ numstrs) as Hp by (apply list_elem_of_lookup; eauto).
  assert (Hbin : ∀ c, c ∈ list_ascii_of_string p → c = "0"%char ∨ c = "1"%char)
    by (intros c; apply numstrs_binary; exact Hp).
  assert (pattern 34 (list_ascii_of_string p)) as [Hlen _].
  { pose proof numstrs_patterns as H. rewrite Forall_forall in H. apply H, Hp. }
  assert (length (frame p) = 35%nat) as Hlenf
    by (unfold frame; cbn [length]; rewrite length_fmap, Hlen; reflexivity).
  unfold press in Hpins. rewrite <- app_assoc in Hpins.
  destruct (run_captures b (frame p) st _ Hbuf Hpos ltac:(lia)
              (frame_short_phases p Hbin) Hpins)
    as (st35 & Hrun & Hcap & Hcp35 & Hrest & Hstack & Hlenp & Hlock).
  rewrite Hlenf in Hrun, Hcp35. rewrite Hcp in Hcp35.
  assert (captured st = []) as Hnil by (unfold captured; rewrite Hcp; apply take_0).
  rewrite Hnil in Hcap. cbn [app] in Hcap.
  assert (buffer_ok st35) as Hbuf35.
  { destruct Hbuf as [Hl _]. split; [congruence | lia]. }
  assert (pos_ok st35) as Hpos35.
  { destruct Hlock as (Hp35 & _). unfold pos_ok in *. rewrite Hp35. exact Hpos. }
  set (st1 := set_pins rest st35).
  assert (buffer_ok st1) as Hbuf1 by exact Hbuf35.
  assert (spec_match (decoded b st1) = Z.of_nat i) as Hnum.
  { apply (spec_match_entry _ i p Hi). unfold decoded.
    change (captured st1) with (captured st35).
    rewrite Hcap, (spec_bits_frame b p Hbin) by lia.
    rewrite take_app_length' by (symmetry; exact Hlen). reflexivity. }
  exists st1, (printed b st1).
  split; [exact Hcap|]. split; [exact Hlock|]. split.
  - rewrite <- Hnum. apply (getvalue_spec b st1 Hbuf1).
  - change 36%nat with (35 + 1)%nat.
    rewrite run_app, (bind_Ok _ _ _ _ _ Hrun). cbn [run].
    rewrite (bind_Ok _ _ st35 tt (timed_out b st1)); [|].
    + unfold ret, timed_out. rewrite Hnum. reflexivity.
    + rewrite (loop_cases b st35 Hbuf35 Hpos35), Hrest.
      rewrite (wait_while_timeout true _ (Z.to_nat MAXPULSE) 0 rest);
        [reflexivity | lia | lia | unfold MAXPULSE; lia | unfold MAXPULSE; lia].
Qed.

Lemma key_press_decoded_witness :
  numstrs !! 5%nat = Some key5 ∧
  buffer_ok (power_on (stale key5) (press key5)) ∧
  ∃ st1 st2,
    captured st1 = frame key5 ∧ getvalue ESP32 st1 = Ok 5 st2 ∧
    run ESP32 36 (power_on (stale key5) (press key5)) =
      Ok tt (set_currentpulse 0 (after_digit 5 st2)).
Proof.
  assert (buffer_ok (power_on (stale key5) (press key5))) as Hb
    by (split; [reflexivity | cbn; lia]).
  split; [reflexivity|]. split; [exact Hb|].
  destruct (key_press_decoded ESP32 5 key5 _ [] eq_refl Hb
              ltac:(unfold pos_ok; cbn; lia) eq_refl ltac:(symmetry; apply app_nil_r))
    as (st1 & st2 & Hcap & _ & Hget & Hrun).
  exists st1, st2. split; [exact Hcap|]. split; [exact Hget | exact Hrun].
Defined.

Lemma decode_from_appends b todo : ∀ i c str st r st',
  decode_from b todo i c str st = Ok r st' →
  ∃ out, st' = set_trace (trace st ++ out) st.
Proof.
  induction todo as [|todo IH]; intros i c str st r st' H; cbn [decode_from] in H.
  - injection H as _ <-. exists []. symmetry. apply set_trace_nil.
  - destruct (c <? 34).
    2:{ injection H as _ <-. exists []. symmetry. apply set_trace_nil. }
    rewrite bind_get in H.
    destruct (at_index (pulses st) i) as [[high low]|]; [|discriminate].
    destruct (scaled b low >? 1000); [eapply IH, H|].
    destruct (scaled b high >? 1000); rewrite bind_emit in H;
      apply IH in H as [out ->]; eexists; unfold set_trace; cbn;
      rewrite <- app_assoc; reflexivity.
Qed.

Lemma match_from_appends tbl : ∀ i str st r st',
  0 <= i →
  match_from tbl i str st = Ok r st' →
  (∃ out, st' = set_trace (trace st ++ out) st) ∧
  (r = -1 ∨ i <= r < i + Z.of_nat (length tbl)).
Proof.
  induction tbl as [|p tbl IH]; intros i str st r st' Hi H; cbn [match_from] in H.
  - injection H as <- <-. split; [|left; reflexivity].
    exists []. symmetry. apply set_trace_nil.
  - destruct (strncmp str (list_ascii_of_string p) 34 =? 0).
    + rewrite bind_emit in H. injection H as <- <-.
      split; [eexists; reflexivity|]. right. cbn [length]. lia.
    + apply IH in H as [Hout Hr]; [|lia]. split; [exact Hout|].
      cbn [length]. lia.
Qed.

(** X8: [getvalue] only reads the capture: when it returns, the capture
    buffer, the capture index, the lock position, the latch, the stack
    memory and the pending samples are what they were, the output has only
    grown, and the value is -1 or a digit 0..9. *)
Theorem getvalue_reads_only (b : board) (st st' : state) (num : Z) :
  getvalue b st = Ok num st' →
  (∃ out, st' = set_trace (trace st ++ out) st) ∧ -1 <= num <= 9.
Proof.
  unfold getvalue. rewrite !bind_get. unfold bind at 1.
  destruct (decode_from b _ 0 0 _ st) as [r st1|f st1|st1] eqn:E; [|discriminate..].
  apply decode_from_appends in E as [out1 ->].
  rewrite !bind_emit. intros H.
  apply match_from_appends in H as [[out2 ->] Hr]; [|lia]. split.
  - eexists. unfold set_trace. cbn. rewrite <- !app_assoc. reflexivity.
  - change (Z.of_nat (length numstrs)) with 10 in Hr. lia.
Qed.

Lemma getvalue_reads_only_witness :
  (∃ st', getvalue AVR short_capture = Ok 5 st' ∧
          pulses st' = pulses short_capture ∧ pos st' = pos short_capture) ∧
  -1 <= 5 <= 9.
Proof.
  assert (getvalue AVR short_capture =
          Ok 5 (final (getvalue AVR short_capture))) as H by (vm_compute; reflexivity).
  destruct (getvalue_reads_only AVR short_capture _ 5 H) as [[out Hout] Hr].
  split; [|exact Hr].
  eexists. split; [exact H|]. rewrite Hout. split; reflexivity.
Defined.

Lemma decoded_full b st :
  length (spec_bits b (captured st)) = 34%nat →
  decoded b st = spec_bits b (captured st).
Proof.
  intros Hlen. unfold decoded. rewrite Hlen.
  rewrite drop_ge by (rewrite length_fmap, length_seq; lia).
  apply app_nil_r.
Qed.

(** X9: a decode of 34 bits is settled by those bits: two captures that
    give the same 34 bits give the same value, whatever the stack memory
    holds and whatever pulse pairs follow the 34th bit. *)
Theorem getvalue_full_decode (b : board) (st1 st2 : state) :
  buffer_ok st1 → buffer_ok st2 →
  length (spec_bits b (captured st1)) = 34%nat →
  spec_bits b (captured st2) = spec_bits b (captured st1) →
  ∃ st1' st2',
    getvalue b st1 = Ok (spec_match (spec_bits b (captured st1))) st1' ∧
    getvalue b st2 = Ok (spec_match (spec_bits b (captured st1))) st2'.
Proof.
  intros Hb1 Hb2 Hlen Heq. exists (printed b st1), (printed b st2).
  rewrite (getvalue_spec b st1 Hb1), (getvalue_spec b st2 Hb2).
  rewrite (decoded_full b st1 Hlen).
  rewrite (decoded_full b st2) by (rewrite Heq; exact Hlen).
  rewrite Heq. split; reflexivity.
Qed.

Lemma getvalue_full_decode_witness :
  buffer_ok (key_capture blank_stack key5) ∧ buffer_ok (key5_held (stale key5)) ∧
  ∃ st1' st2',
    getvalue AVR (key_capture blank_stack key5) = Ok 5 st1' ∧
    getvalue AVR (key5_held (stale key5)) = Ok 5 st2'.
Proof.
  assert (buffer_ok (key_capture blank_stack key5)) as H1
    by (split; [reflexivity | cbn; lia]).
  assert (buffer_ok (key5_held (stale key5))) as H2
    by (split; [reflexivity | cbn; lia]).
  split; [exact H1|]. split; [exact H2|].
  exact (getvalue_full_decode AVR _ _ H1 H2 eq_refl eq_refl).
Defined.

(** X10: a decode of fewer than 34 bits gives -1 when the byte of [str]
    behind the last bit is neither '0' nor '1', as it is in zeroed memory. *)
Theorem short_decode_clean_memory (b : board) (st : state) :
  buffer_ok st →
  (length (spec_bits b (captured st)) < 34)%nat →
  stack st (length (spec_bits b (captured st))) ≠ "0"%char →
  stack st (length (spec_bits b (captured st))) ≠ "1"%char →
  ∃ st', getvalue b st = Ok (-1) st'.
Proof.
  intros Hbuf Hn H0 H1. exists (printed b st).
  apply (getvalue_short_clean b st Hbuf Hn H0 H1).
Qed.

Lemma short_decode_clean_memory_witness :
  buffer_ok short_capture_clean ∧
  ∃ st', getvalue AVR short_capture_clean = Ok (-1) st'.
Proof.
  assert (buffer_ok short_capture_clean) as Hb by (split; [reflexivity | cbn; lia]).
  split; [exact Hb|].
  apply (short_decode_clean_memory AVR short_capture_clean Hb).
  - vm_compute. lia.
  - vm_compute. discriminate.
  - vm_compute. discriminate.
Defined.

(** X4: with fewer than 100 pairs captured every access of a call of
    [loop] to [pulses] and to [code] is inside the array: the call
    completes or waits for samples.  When it completes, either the index
    is 0, as after a timeout, or it has captured a pair: the index is one
    more than before and the lock position, the latch and the output are
    untouched.  The buffer and the lock position stay in range.  The read
    of [Serial.println(str)] in [getvalue] is no part of this: it can
    leave [str] in a call that times out. *)
Theorem loop_safe_below_capacity (b : board) (st : state) :
  buffer_ok st → pos_ok st → currentpulse st < 100 →
  (∀ f st', loop b st ≠ Undefined f st') ∧
  (∀ st', loop b st = Ok tt st' →
     buffer_ok st' ∧ pos_ok st' ∧
     (currentpulse st' = 0 ∨
      (currentpulse st' = currentpulse st + 1 ∧ lock_untouched st st'))).
Proof.
  intros Hbuf Hpos Hlt. split.
  - intros f st'. apply loop_in_bounds; assumption.
  - intros st' Hrun.
    destruct (loop_inv b st st' Hbuf Hpos Hrun) as [Hbuf' Hpos'].
    split; [exact Hbuf'|]. split; [exact Hpos'|].
    rewrite (loop_cases b st Hbuf Hpos) in Hrun.
    destruct (wait_while true (currentpulse st) 0 (pins st)) as [[[h|] rest]|];
      [| |discriminate].
    + destruct (Z.eqb_spec (currentpulse st) 100) as [E|E]; [discriminate|].
      destruct (wait_while false _ 0 rest) as [[[l|] rest2]|]; [| |discriminate];
        injection Hrun as <-.
      * right. split; [|repeat split].
        cbn. unfold wrap8. destruct Hbuf. rewrite Z.mod_small; lia.
      * left. reflexivity.
    + injection Hrun as <-. left. reflexivity.
Qed.

Lemma loop_safe_below_capacity_witness :
  buffer_ok (power_on blank_stack (burst 1)) ∧
  ∃ st', loop AVR (power_on blank_stack (burst 1)) = Ok tt st' ∧
         (currentpulse st' = 0 ∨
          (currentpulse st' = 0 + 1 ∧ lock_untouched (power_on blank_stack (burst 1)) st')).
Proof.
  assert (buffer_ok (power_on blank_stack (burst 1))) as Hb
    by (split; [reflexivity | cbn; lia]).
  split; [exact Hb|].
  exists (final (loop AVR (power_on blank_stack (burst 1)))).
  split; [reflexivity|].
  apply (proj2 (loop_safe_below_capacity AVR _ Hb
                  ltac:(unfold pos_ok; cbn; lia) ltac:(cbn; lia))).
  reflexivity.
Defined.

Lemma after_digit_servo num st : servo_ok st → servo_ok (after_digit num st).
Proof.
  unfold servo_ok, after_digit. intros H.
  destruct (num =? -1); [exact H|].
  destruct (at_index code (pos st)) as [c|]; [|exact H].
  destruct (num =? c); [|exact H].
  destruct (pos st =? 7); [|exact H].
  cbn. unfold toggled. destruct (servopos st =? 0); lia.
Qed.

Lemma loop_servo b st st' :
  buffer_ok st → pos_ok st → servo_ok st → loop b st = Ok tt st' → servo_ok st'.
Proof.
  intros Hbuf Hpos Hservo. rewrite (loop_cases b st Hbuf Hpos).
  destruct (wait_while true (currentpulse st) 0 (pins st)) as [[[h|] rest]|];
    [| |discriminate].
  - destruct (Z.eqb_spec (currentpulse st) 100) as [E|E]; [discriminate|].
    destruct (wait_while false _ 0 rest) as [[[l|] rest2]|]; [| |discriminate];
      intros H; injection H as <-.
    + exact Hservo.
    + unfold timed_out. apply after_digit_servo.
      unfold servo_ok, high_stored. cbn.
      destruct (at_index (pulses st) (currentpulse st)) as [[? ?]|]; exact Hservo.
  - intros H; injection H as <-. unfold timed_out. apply after_digit_servo.
    exact Hservo.
Qed.

Lemma reachable_inv b st :
  reachable b st → buffer_ok st ∧ pos_ok st ∧ servo_ok st.
Proof.
  induction 1 as [junk samples st Hsetup | st st' _ (IHb & IHp & IHs) Hloop | st junk _ IH].
  - unfold setup in Hsetup. rewrite bind_emit, bind_get in Hsetup.
    injection Hsetup as <-. split; [|split].
    + split; [reflexivity | cbn; lia].
    + unfold pos_ok. cbn. lia.
    + left. reflexivity.
  - destruct (loop_inv b st st' IHb IHp Hloop) as [Hb Hp].
    split; [exact Hb|]. split; [exact Hp|]. apply (loop_servo b st st'); assumption.
  - exact IH.
Qed.

(** ** The string handed to [Serial.println] *)

Lemma spec_bits_binary b ps c :
  c ∈ spec_bits b ps → c = "0"%char ∨ c = "1"%char.
Proof.
  unfold spec_bits. intros Hc. apply elem_of_take in Hc as (i & Hi & _).
  apply list_elem_of_lookup_2, list_elem_of_fmap in Hi as (p & -> & _).
  unfold bit_of. destruct (scaled b (fst p) >? 1000); [right | left]; reflexivity.
Qed.

Lemma cstring_app bits rest :
  (∀ c, c ∈ bits → c = "0"%char ∨ c = "1"%char) →
  cstring (bits ++ rest) = bits ++ cstring rest ∧
  unterminated (bits ++ rest) = unterminated rest.
Proof.
  induction bits as [|c bits IH]; intros Hbin; [split; reflexivity|].
  destruct IH as [IH1 IH2]; [intros c' Hc'; apply Hbin; right; exact Hc'|].
  assert (Ascii.eqb c zero = false) as Hc
    by (destruct (Hbin c) as [-> | ->]; [left | |]; reflexivity).
  unfold unterminated in *. cbn [app cstring forallb]. rewrite Hc, IH1, IH2.
  split; reflexivity.
Qed.

Lemma unterminated_spec a :
  unterminated a = true ↔ zero ∉ a.
Proof.
  unfold unterminated. rewrite forallb_forall. split.
  - intros H Hin. apply list_elem_of_In in Hin. specialize (H zero Hin).
    discriminate.
  - intros H c Hc. destruct (Ascii.eqb_spec c zero) as [-> | _]; [|reflexivity].
    exfalso. apply H, list_elem_of_In. exact Hc.
Qed.

Lemma elem_of_drop_stack (junk : nat → ascii) (n : nat) (c : ascii) :
  c ∈ drop n (junk <$> seq 0 34) ↔ ∃ k, (n <= k < 34)%nat ∧ junk k = c.
Proof.
  rewrite list_elem_of_lookup. split.
  - intros (i & Hi). rewrite lookup_drop, list_lookup_fmap in Hi.
    destruct (seq 0 34 !! (n + i)%nat) as [k|] eqn:E; [|discriminate].
    apply lookup_seq in E as [-> Hlt]. injection Hi as <-.
    exists (n + i)%nat. split; [lia | reflexivity].
  - intros (k & Hk & <-). exists (k - n)%nat.
    rewrite lookup_drop, list_lookup_fmap.
    replace (n + (k - n))%nat with k by lia.
    rewrite (proj2 (lookup_seq 0 34 k k)); [reflexivity | lia].
Qed.

(** X6: what [getvalue] reads.  With the capture index inside the buffer
    every load from [pulses] is inside the array and [getvalue] returns.
    Its [Serial.println(str)] sends the decoded bits and then the bytes of
    [str] behind them up to the first zero byte, and it reads on behind
    the array exactly when none of the bytes the decode left unwritten is
    zero: always after a decode of 34 bits. *)
Theorem println_reads_behind (b : board) (st : state) :
  buffer_ok st →
  let bits := spec_bits b (captured st) in
  let unwritten := drop (length bits) (stack st <$> seq 0 34) in
  ∃ num st' more,
    getvalue b st = Ok num st' ∧
    trace st' =
      trace st ++ (bit_event <$> bits) ++
      SerialPrint (String "010" "") ::
      SerialPrintBuf (bits ++ cstring unwritten) (unterminated unwritten) :: more ∧
    (more = [] ∨ more = [SerialPrintNum num]) ∧
    (unterminated unwritten = true ↔
       ∀ k, (length bits <= k < 34)%nat → stack st k ≠ zero) ∧
    (length bits = 34%nat → unterminated unwritten = true).
Proof.
  intros Hbuf bits unwritten.
  destruct (cstring_app bits unwritten) as [Hc Hu].
  { intros c. apply spec_bits_binary. }
  assert (unterminated unwritten = true ↔
          ∀ k, (length bits <= k < 34)%nat → stack st k ≠ zero) as Hiff.
  { rewrite unterminated_spec. unfold unwritten. rewrite elem_of_drop_stack.
    split.
    - intros H k Hk E. apply H. exists k. split; assumption.
    - intros H (k & Hk & E). exact (H k Hk E). }
  eexists _, _, _. split; [apply (getvalue_spec b st Hbuf)|].
  split; [|split; [|split]].
  - unfold printed, getvalue_output. cbn [trace set_trace].
    change (decoded b st) with (bits ++ unwritten). rewrite Hc, Hu.
    rewrite <- ?app_assoc. reflexivity.
  - change (decoded b st) with (bits ++ unwritten).
    destruct (spec_match (bits ++ unwritten) =? -1); [left | right]; reflexivity.
  - exact Hiff.
  - intros Hlen. apply Hiff. intros k Hk. lia.
Qed.

Lemma println_reads_behind_witness :
  buffer_ok (key_capture blank_stack key5) ∧
  length (spec_bits AVR (captured (key_capture blank_stack key5))) = 34%nat ∧
  ∃ num st',
    getvalue AVR (key_capture blank_stack key5) = Ok num st' ∧
    unterminated
      (drop (length (spec_bits AVR (captured (key_capture blank_stack key5))))
         (stack (key_capture blank_stack key5) <$> seq 0 34)) = true.
Proof.
  assert (buffer_ok (key_capture blank_stack key5)) as Hb.
  { split; [reflexivity | cbn; lia]. }
  assert (length (spec_bits AVR (captured (key_capture blank_stack key5))) = 34%nat)
    as Hlen by (vm_compute; reflexivity).
  split; [exact Hb|]. split; [exact Hlen|].
  destruct (println_reads_behind AVR (key_capture blank_stack key5) Hb)
    as (num & st' & more & Hrun & _ & _ & _ & H34).
  exists num, st'. split; [exact Hrun | exact (H34 Hlen)].
Defined.

(** X7: in every state the sketch reaches from power-on the servo angle is
    0 or 180. *)
Theorem servo_angle_two_valued (b : board) (st : state) :
  reachable b st → servopos st = 0 ∨ servopos st = 180.
Proof.
  intros Hreach. destruct (reachable_inv b st Hreach) as (_ & _ & H). exact H.
Qed.

Lemma servo_angle_two_valued_witness :
  reachable AVR first_pulse ∧ (servopos first_pulse = 0 ∨ servopos first_pulse = 180).
Proof.
  split; [exact first_pulse_reachable|].
  exact (servo_angle_two_valued AVR first_pulse first_pulse_reachable).
Defined.

Lemma feed_code st :
  pos st = 0 → feed code st = Ok tt (unlocked (set_pos 7 (set_trace (trace st ++ cues 7) st))).
Proof.
  intros H0.
  pose proof (feed_right_digits 7 st) as H. rewrite H0 in H.
  change (Z.to_nat 0) with 0%nat in H. rewrite drop_0 in H.
  change code with (take 7 code ++ [0]).
  rewrite feed_app, (bind_Ok _ _ _ _ _ (H ltac:(unfold pos_ok; lia) ltac:(lia))).
  cbn [feed].
  rewrite (bind_Ok _ _ _ _ _
             (check_digit_last (set_pos (0 + Z.of_nat 7) (set_trace (trace st ++ cues 7) st)) eq_refl)).
  reflexivity.
Qed.

(** X12: the lock cannot be stuck: at any position a refused digit or a
    failed decode puts the position to 0, and the eight digits of the code
    entered after it toggle the latch once and leave the position at 0. *)
Theorem refused_then_code_unlocks (w : Z) (st : state) :
  pos_ok st → (w = -1 ∨ at_index code (pos st) ≠ Some w) →
  ∃ st', feed (w :: code) st = Ok tt st' ∧
         pos st' = 0 ∧ servopos st' = toggled (servopos st) ∧
         trace st' = trace st ++ cue false ++ cues 8 ++
                     [SerialPrint "Congratulations!"; ServoWrite (toggled (servopos st))].
Proof.
  intros Hpos Hw.
  assert (check_digit w st = Ok tt (rejected st)) as Hrej.
  { destruct Hw as [-> | Hne]; [apply check_digit_no_match|].
    destruct (at_index_code (pos st) Hpos) as (c & Hc & _).
    apply (check_digit_wrong w c st Hc). congruence. }
  eexists. cbn [feed]. rewrite (bind_Ok _ _ _ _ _ Hrej).
  split; [apply feed_code; reflexivity|].
  split; [reflexivity|]. split; [reflexivity|].
  unfold unlocked, rejected, cues. cbn. rewrite <- !app_assoc. reflexivity.
Qed.

Lemma refused_then_code_unlocks_witness :
  pos_ok mid_entry ∧
  ∃ st', feed (5 :: code) mid_entry = Ok tt st' ∧ pos st' = 0 ∧ servopos st' = 180.
Proof.
  assert (pos_ok mid_entry) as H by (unfold pos_ok; cbn; lia).
  split; [exact H|].
  destruct (refused_then_code_unlocks 5 mid_entry H ltac:(right; discriminate))
    as (st' & Hrun & Hp & Hs & _).
  exists st'. split; [exact Hrun|]. split; [exact Hp | exact Hs].
Defined.

(** X13: the code entered twice puts the latch back: with the servo at 0 or
    180 and the position at 0, sixteen digits toggle the latch twice and end
    with the servo angle and the position they started from. *)
Theorem code_twice_relocks (st : state) :
  pos st = 0 → servopos st = 0 ∨ servopos st = 180 →
  ∃ st', feed (code ++ code) st = Ok tt st' ∧
         pos st' = 0 ∧ servopos st' = servopos st ∧
         trace st' = trace st ++
           cues 8 ++ [SerialPrint "Congratulations!"; ServoWrite (toggled (servopos st))] ++
           cues 8 ++ [SerialPrint "Congratulations!"; ServoWrite (servopos st)].
Proof.
  intros H0 Hservo. eexists.
  rewrite feed_app, (bind_Ok _ _ _ _ _ (feed_code st H0)).
  split; [apply feed_code; reflexivity|].
  split; [reflexivity|].
  assert (toggled (toggled (servopos st)) = servopos st) as Htt
    by (destruct Hservo as [-> | ->]; reflexivity).
  split.
  - cbn. exact Htt.
  - unfold unlocked, cues. cbn. rewrite Htt, <- !app_assoc. reflexivity.
Qed.

Lemma code_twice_relocks_witness :
  pos (power_on blank_stack []) = 0 ∧
  ∃ st', feed (code ++ code) (power_on blank_stack []) = Ok tt st' ∧
         pos st' = 0 ∧ servopos st' = 0.
Proof.
  split; [reflexivity|].
  destruct (code_twice_relocks (power_on blank_stack []) eq_refl ltac:(left; reflexivity))
    as (st' & Hrun & Hp & Hs & _).
  exists st'. split; [exact Hrun|]. split; [exact Hp | exact Hs].
Defined.

(** X11: one digit gives one cue, and the latch moves only for the last
    digit of the code at position 7: any other step leaves the servo where
    it is and adds nothing but its cue to the output. *)
Theorem latch_moves_on_last_digit (num : Z) (st st' : state) :
  pos_ok st → check_digit num st = Ok tt st' →
  (pos st = 7 ∧ num = 0 ∧ servopos st' = toggled (servopos st) ∧
   trace st' = trace st ++ cue true ++
               [SerialPrint "Congratulations!"; ServoWrite (toggled (servopos st))]) ∨
  (servopos st' = servopos st ∧
   (trace st' = trace st ++ cue true ∨ trace st' = trace st ++ cue false)).
Proof.
  intros Hpos Hrun. rewrite (check_digit_spec num st Hpos) in Hrun.
  injection Hrun as <-. unfold after_digit.
  destruct (Z.eqb_spec num (-1)) as [->|Hn]; [right; cbn; tauto|].
  destruct (at_index_code (pos st) Hpos) as (c & Hc & _). rewrite Hc.
  destruct (Z.eqb_spec num c) as [->|Hne]; [|right; cbn; tauto].
  destruct (Z.eqb_spec (pos st) 7) as [E7|E7]; [|right; cbn; tauto].
  left. rewrite E7 in Hc. change (at_index code 7) with (Some 0) in Hc.
  injection Hc as <-. cbn. tauto.
Qed.

Lemma latch_moves_on_last_digit_witness :
  pos_ok mid_entry ∧
  servopos (final (check_digit 8 mid_entry)) = servopos mid_entry.
Proof.
  assert (pos_ok mid_entry) as H by (unfold pos_ok; cbn; lia).
  split; [exact H|].
  destruct (latch_moves_on_last_digit 8 mid_entry (final (check_digit 8 mid_entry)) H eq_refl)
    as [(H7 & _) | (Hs & _)]; [discriminate | exact Hs].
Defined.

(** X5: with the buffer full a timeout still hands the capture to
    [checkcode], but one more pulse is stored at index 100, behind the
    array. *)
Theorem loop_at_capacity (b : board) (st : state) (h : nat) (rest : list bool) :
  buffer_ok st → pos_ok st → currentpulse st = 100 →
  (pins st = replicate (Z.to_nat MAXPULSE) true ++ rest →
     ∃ st', checkcode b (set_pins rest st) = Ok tt st' ∧
            loop b st = Ok tt (set_currentpulse 0 st')) ∧
  (Z.of_nat h < MAXPULSE → pins st = replicate h true ++ false :: rest →
     loop b st = Undefined (PulsesStore 100) (set_pins rest st)).
Proof.
  intros Hbuf Hpos Hcp. split.
  - intros Hpins.
    assert (buffer_ok (set_pins rest st)) as Hbuf' by exact Hbuf.
    assert (pos_ok (set_pins rest st)) as Hpos' by exact Hpos.
    eexists. split; [apply (checkcode_spec b _ Hbuf' Hpos')|].
    rewrite (loop_cases b st Hbuf Hpos), Hpins.
    rewrite (wait_while_timeout true _ (Z.to_nat MAXPULSE) 0 rest);
      [reflexivity | lia | lia | unfold MAXPULSE; lia | unfold MAXPULSE; lia].
  - intros Hh Hpins. apply (loop_overflow b st h rest); assumption.
Qed.

Lemma loop_at_capacity_witness :
  buffer_ok full_buffer ∧ currentpulse full_buffer = 100 ∧
  loop AVR full_buffer = Undefined (PulsesStore 100) (set_pins [false; true] full_buffer).
Proof.
  assert (buffer_ok full_buffer) as Hb by (split; [reflexivity | cbn; lia]).
  split; [exact Hb|]. split; [reflexivity|].
  apply (proj2 (loop_at_capacity AVR full_buffer 1 [false; true] Hb
                  ltac:(unfold pos_ok; cbn; lia) eq_refl)).
  - unfold MAXPULSE. lia.
  - reflexivity.
Defined.

End SafeLock.

(** * TempHumidityMonitor.ino *)

Module Monitor.

(** ** The sketch *)

(** TempHumidityMonitor.ino:52-53 *)
Definition SAMPLE_MINUTES : Z := 30.

Definition SAMPLES_PER_DAY : Z := 24 * 60 / SAMPLE_MINUTES.

(** TempHumidityMonitor.ino:56-57 *)
Definition MIN_TEMP : Z := 10.

Definition MAX_TEMP : Z := 45.

(** [float] is IEEE 754 single precision: 24 bits of mantissa, exponents
    up to 128. *)
Definition prec : Z := 24.

(** The exponent of the infinities. *)
Definition emax : Z := 128.

(** A value the sensor driver can return. *)
Definition is_float (t : spec_float) : Prop := valid_binary prec emax t = true.

(** Conversion of an [int] operand to [float]. *)
Definition float_of_int (n : Z) : spec_float := binary_normalize prec emax n 0 false.

(** TempHumidityMonitor.ino:62-65 *)
Record SensorData := mkSensorData { temp : spec_float; humidity : spec_float }.

(** The mails [collectSample] has sent. *)
Inductive mail :=
| ThresholdMsg (sd : list SensorData) (idx : Z)   (* sendThresholdMsg(sd, idx) *)
| DailyMsg (sd : list SensorData).                (* sendDailyMsg(sd) *)

(** The function-statics of [collectSample]. *)
Record samples := mkSamples { sampleNum : Z; sd : list SensorData }.

(** The test of TempHumidityMonitor.ino:183. *)
Definition threshold_crossed (t : spec_float) : bool :=
  SFltb t (float_of_int MIN_TEMP) || SFltb (float_of_int MAX_TEMP) t.

(** TempHumidityMonitor.ino:175-193, for the reading the sensor gives.
    The reading is stored in [sd[sampleNum]] and tested from there; [None]
    stands for an index outside the array. *)
Definition collectSample (reading : SensorData) (s : samples)
  : option (samples * list mail) :=
  let i := sampleNum s in
  match at_index (sd s) i with
  | None => None
  | Some _ =>
      let sd1 := <[Z.to_nat i := reading]> (sd s) in
      match at_index sd1 i with
      | None => None
      | Some stored =>
          let warning :=
            if threshold_crossed (temp stored) then [ThresholdMsg sd1 i] else [] in
          let n := i + 1 in
          if n >=? SAMPLES_PER_DAY
          then Some (mkSamples 0 sd1, warning ++ [DailyMsg sd1])
          else Some (mkSamples n sd1, warning)
      end
  end.

(** ** Reference definitions *)

(** Whether a threshold warning is among the mails sent. *)
Definition warned (sent : list mail) : bool :=
  existsb (fun m => match m with ThresholdMsg _ _ => true | DailyMsg _ => false end) sent.

(** The number a float stands for. *)
Inductive number := NotANumber | MinusInfinity | PlusInfinity | Finite (q : Q).

(** A mantissa with its sign. *)
Definition signed (s : bool) (m : positive) : Z := if s then Zneg m else Zpos m.

(** A finite float stands for the rational [signed s m * 2^e]. *)
Definition number_of (t : spec_float) : number :=
  match t with
  | S754_nan => NotANumber
  | S754_infinity s => if s then MinusInfinity else PlusInfinity
  | S754_zero _ => Finite 0
  | S754_finite s m e => Finite (inject_Z (signed s m) * 2 ^ e)
  end.

(** Strictly below and strictly above an integer; not-a-number is
    neither. *)
Definition below (x : number) (n : Z) : Prop :=
  match x with
  | MinusInfinity => True
  | Finite q => (q < inject_Z n)%Q
  | _ => False
  end.

Definition above (x : number) (n : Z) : Prop :=
  match x with
  | PlusInfinity => True
  | Finite q => (inject_Z n < q)%Q
  | _ => False
  end.

(** The sample array has its 48 entries and the index points into it. *)
Definition samples_ok (s : samples) : Prop :=
  Z.of_nat (length (sd s)) = SAMPLES_PER_DAY ∧ 0 <= sampleNum s < SAMPLES_PER_DAY.

(** The value of a positive float in units of 2^-149. *)
Definition units (m : positive) (e : Z) : Z := Z.pos m * 2 ^ (e + 149).

(** ** Concrete inputs *)

(** A day of samples at 20 degrees, and a reading of 5 degrees. *)
Definition mild_day : samples :=
  mkSamples 7 (replicate 48 (mkSensorData (float_of_int 20) (float_of_int 50))).

Definition cold : SensorData := mkSensorData (float_of_int 5) (float_of_int 50).

(** ** The rest of the sketch *)

(** [collectSample] called once for each reading of a list. *)
Fixpoint collect_all (rs : list SensorData) (s : samples) : option (samples * list mail) :=
  match rs with
  | [] => Some (s, [])
  | r :: rs' =>
      match collectSample r s with
      | None => None
      | Some (s1, sent1) =>
          match collect_all rs' s1 with
          | None => None
          | Some (s2, sent2) => Some (s2, sent1 ++ sent2)
          end
      end
  end.

(** What one call of [loop] reads: whether the button pin is LOW, the
    reading taken for the on-demand mail and the reading taken for the
    sample (each is read only when the call needs it). *)
Record tick := mkTick { button : bool; demand : SensorData; sample : SensorData }.

(** The function-static [numloops] of [loop] and the statics of
    [collectSample]. *)
Record monitor := mkMonitor { numloops : Z; store : samples }.

(** The mails of one call of [loop]. *)
Inductive report :=
| OnDemandMsg (r : SensorData)     (* sendOnDemandMsg(&sd) *)
| FromSample (m : mail).           (* a mail sent by collectSample() *)

(** TempHumidityMonitor.ino:241-267.  The wait of ten seconds at the end
    leaves no mark. *)
Definition loop (i : tick) (m : monitor) : option (monitor * list report) :=
  let on_demand := if button i then [OnDemandMsg (demand i)] else [] in
  if numloops m * 10 >=? SAMPLE_MINUTES * 60 then
    match collectSample (sample i) (store m) with
    | None => None
    | Some (s', sent) => Some (mkMonitor (0 + 1) s', on_demand ++ (FromSample <$> sent))
    end
  else Some (mkMonitor (numloops m + 1) (store m), on_demand).

(** [loop] called once for each tick of a list. *)
Fixpoint loops (ticks : list tick) (m : monitor) : option (monitor * list report) :=
  match ticks with
  | [] => Some (m, [])
  | i :: ticks' =>
      match loop i m with
      | None => None
      | Some (m1, sent1) =>
          match loops ticks' m1 with
          | None => None
          | Some (m2, sent2) => Some (m2, sent1 ++ sent2)
          end
      end
  end.

(** The averaging loop of [sendDailyMsg], TempHumidityMonitor.ino:121-130,
    for one column of the samples: single-precision sum from 0, divided by
    the number of samples. *)
Definition average (column : list spec_float) : spec_float :=
  SFdiv prec emax
    (fold_left (SFadd prec emax) column (S754_zero false))
    (float_of_int SAMPLES_PER_DAY).

(** The two averages [sendDailyMsg] reports. *)
Definition daily_averages (l : list SensorData) : spec_float * spec_float :=
  (average (temp <$> l), average (humidity <$> l)).

(** A tick with the button released, and one with the button pressed. *)
Definition quiet_tick : tick := mkTick false cold cold.

Definition pressed_tick : tick := mkTick true cold cold.

(** The monitor at the start, over a day of samples at 20 degrees. *)
Definition at_start : monitor := mkMonitor 0 mild_day.

(** The sample array at the start of a day, and a day of cold readings. *)
Definition new_day : samples :=
  mkSamples 0 (replicate 48 (mkSensorData (float_of_int 20) (float_of_int 50))).

Definition cold_day : list SensorData := replicate 48 cold.

(** A reading whose temperature is not a number. *)
Definition broken : SensorData := mkSensorData S754_nan (float_of_int 50).

(** The mails [collectSample] sent among the reports, and the readings of
    the on-demand mails. *)
Definition mails_of (sent : list report) : list mail :=
  omap (fun r => match r with FromSample m => Some m | OnDemandMsg _ => None end) sent.

Definition demands_of (sent : list report) : list SensorData :=
  omap (fun r => match r with OnDemandMsg d => Some d | FromSample _ => None end) sent.

(** The on-demand mails of a list of ticks. *)
Definition on_demand (ticks : list tick) : list report :=
  omap (fun t => if button t then Some (OnDemandMsg (demand t)) else None) ticks.

(** The same tick with the button released. *)
Definition released (t : tick) : tick := mkTick false (demand t) (sample t).

Definition is_warning (m : mail) : Prop :=
  match m with ThresholdMsg _ _ => True | DailyMsg _ => False end.

Definition crossing (r : SensorData) : Prop := threshold_crossed (temp r) = true.

(** ** Comparison of single-precision values *)

Lemma digits2_pos_size m : digits2_pos m = Pos.size m.
Proof. induction m; cbn; congruence. Qed.

Lemma bounded_facts m e :
  bounded prec emax m e = true →
  -149 <= e ∧ Z.pos m < 2 ^ 24 ∧ (-149 < e → 2 ^ 23 <= Z.pos m).
Proof.
  unfold bounded, canonical_mantissa, fexp, emin, prec, emax.
  intros H. apply andb_prop in H as [H _]. apply Z.eqb_eq in H.
  rewrite digits2_pos_size in H.
  pose proof (Pos.size_gt m) as Hgt. pose proof (Pos.size_le m) as Hle.
  apply Pos2Z.pos_lt_pos in Hgt. apply Pos2Z.pos_le_pos in Hle.
  rewrite Pos2Z.inj_pow in Hgt, Hle. rewrite Pos2Z.inj_xO in Hle.
  set (d := Z.pos (Pos.size m)) in *.
  assert (0 < d) as Hd by (subst d; lia).
  split; [lia|]. split.
  - assert (d <= 24) as Hd24 by lia.
    eapply Z.lt_le_trans; [exact Hgt|]. apply Z.pow_le_mono_r; lia.
  - intros He. assert (d = 24) as Hd24 by lia. rewrite Hd24 in Hle.
    change (2 ^ 24) with (2 * 2 ^ 23) in Hle. lia.
Qed.

Lemma units_lt m1 e1 m2 e2 :
  bounded prec emax m1 e1 = true → bounded prec emax m2 e2 = true →
  e1 < e2 → units m1 e1 < units m2 e2.
Proof.
  intros H1 H2 Hlt.
  apply bounded_facts in H1 as (Hmin1 & Hm1 & _).
  apply bounded_facts in H2 as (Hmin2 & _ & Hm2).
  specialize (Hm2 ltac:(lia)). unfold units.
  assert (0 < 2 ^ (e1 + 149)) as Hp1 by (apply Z.pow_pos_nonneg; lia).
  assert (0 < 2 ^ (e2 + 149)) as Hp2 by (apply Z.pow_pos_nonneg; lia).
  apply Z.lt_le_trans with (2 ^ 24 * 2 ^ (e1 + 149)).
  { apply Z.mul_lt_mono_pos_r; assumption. }
  apply Z.le_trans with (2 ^ 23 * 2 ^ (e2 + 149)).
  2:{ apply Z.mul_le_mono_nonneg_r; lia. }
  rewrite <- !Z.pow_add_r by lia. apply Z.pow_le_mono_r; lia.
Qed.

Lemma units_compare m1 e1 m2 e2 :
  bounded prec emax m1 e1 = true → bounded prec emax m2 e2 = true →
  match e1 ?= e2 with
  | Lt => Lt
  | Gt => Gt
  | Eq => Pos.compare_cont Eq m1 m2
  end = (units m1 e1 ?= units m2 e2).
Proof.
  intros H1 H2. destruct (Z.compare_spec e1 e2) as [->|Hlt|Hgt].
  - unfold units. pose proof (bounded_facts _ _ H2) as (Hmin & _ & _).
    assert (0 < 2 ^ (e2 + 149)) as Hp by (apply Z.pow_pos_nonneg; lia).
    change (Pos.compare_cont Eq m1 m2) with (Z.pos m1 ?= Z.pos m2).
    apply Zmult_compare_compat_r. lia.
  - symmetry. apply Z.compare_lt_iff. apply units_lt; assumption.
  - symmetry. apply Z.compare_gt_iff. apply units_lt; assumption.
Qed.

Lemma two_pow_pos e : (0 < 2 ^ e)%Q.
Proof. apply Qpower_0_lt. reflexivity. Qed.

(** A finite value times 2^149 is the integer [signed s m * 2^(e+149)]. *)
Lemma finite_units s m e :
  -149 <= e →
  (inject_Z (signed s m) * 2 ^ e * 2 ^ 149 == inject_Z (signed s m * 2 ^ (e + 149)))%Q.
Proof.
  intros He. rewrite inject_Z_mult, <- Qmult_assoc.
  rewrite <- Qpower_plus by discriminate.
  rewrite (Zpower_Qpower 2 (e + 149)) by lia. reflexivity.
Qed.

Lemma int_units n : (inject_Z n * 2 ^ 149 == inject_Z (n * 2 ^ 149))%Q.
Proof.
  rewrite inject_Z_mult, (Zpower_Qpower 2 149) by lia. reflexivity.
Qed.

Lemma finite_lt_int s m e n :
  -149 <= e →
  (inject_Z (signed s m) * 2 ^ e < inject_Z n)%Q ↔
  signed s m * 2 ^ (e + 149) < n * 2 ^ 149.
Proof.
  intros He.
  rewrite <- (Qmult_lt_r _ _ (2 ^ 149)) by apply two_pow_pos.
  rewrite finite_units, int_units by exact He.
  rewrite <- Zlt_Qlt. reflexivity.
Qed.

Lemma int_lt_finite s m e n :
  -149 <= e →
  (inject_Z n < inject_Z (signed s m) * 2 ^ e)%Q ↔
  n * 2 ^ 149 < signed s m * 2 ^ (e + 149).
Proof.
  intros He.
  rewrite <- (Qmult_lt_r _ _ (2 ^ 149)) by apply two_pow_pos.
  rewrite finite_units, int_units by exact He.
  rewrite <- Zlt_Qlt. reflexivity.
Qed.

(** [t < c] and [c < t] for a float [t] and a positive float constant [c]
    that stands for the integer [n]. *)
Lemma SFltb_below t m2 e2 n :
  is_float t → bounded prec emax m2 e2 = true → units m2 e2 = n * 2 ^ 149 →
  SFltb t (S754_finite false m2 e2) = true ↔ below (number_of t) n.
Proof.
  intros Ht H2 Hn.
  assert (0 < n * 2 ^ 149) as Hpos.
  { rewrite <- Hn. unfold units. apply bounded_facts in H2 as (? & _ & _).
    apply Z.mul_pos_pos; [lia | apply Z.pow_pos_nonneg; lia]. }
  destruct t as [s|s| |s m e]; unfold SFltb; cbn [SFcompare number_of below].
  - split; [intros _|reflexivity]. unfold Qlt. cbn. lia.
  - destruct s; cbn; split; intros H; try discriminate; tauto.
  - split; [discriminate | tauto].
  - pose proof (bounded_facts m e Ht) as (He & _ & _).
    rewrite (finite_lt_int s m e n He).
    destruct s; cbn [signed].
    + split; [intros _|reflexivity].
      assert (0 < 2 ^ (e + 149)) by (apply Z.pow_pos_nonneg; lia). nia.
    + rewrite (units_compare m e m2 e2 Ht H2), <- Hn. fold (units m e).
      destruct (Z.compare_spec (units m e) (units m2 e2)); split; intros; 
        try discriminate; try reflexivity; lia.
Qed.

Lemma SFltb_above t m2 e2 n :
  is_float t → bounded prec emax m2 e2 = true → units m2 e2 = n * 2 ^ 149 →
  SFltb (S754_finite false m2 e2) t = true ↔ above (number_of t) n.
Proof.
  intros Ht H2 Hn.
  assert (0 < n * 2 ^ 149) as Hpos.
  { rewrite <- Hn. unfold units. apply bounded_facts in H2 as (? & _ & _).
    apply Z.mul_pos_pos; [lia | apply Z.pow_pos_nonneg; lia]. }
  destruct t as [s|s| |s m e]; unfold SFltb; cbn [SFcompare number_of above].
  - split; [discriminate|]. unfold Qlt. cbn. lia.
  - destruct s; cbn; split; intros H; try discriminate; tauto.
  - split; [discriminate | tauto].
  - pose proof (bounded_facts m e Ht) as (He & _ & _).
    rewrite (int_lt_finite s m e n He).
    destruct s; cbn [signed].
    + split; [discriminate|].
      assert (0 < 2 ^ (e + 149)) by (apply Z.pow_pos_nonneg; lia). nia.
    + rewrite (units_compare m2 e2 m e H2 Ht), <- Hn. fold (units m e).
      destruct (Z.compare_spec (units m2 e2) (units m e)); split; intros;
        try discriminate; try reflexivity; lia.
Qed.

(** ** One sample *)

Lemma collectSample_ok reading s :
  samples_ok s →
  ∃ s' sent, collectSample reading s = Some (s', sent) ∧ samples_ok s' ∧
             warned sent = threshold_crossed (temp reading).
Proof.
  intros [Hlen Hi]. unfold collectSample. cbn zeta.
  unfold at_index. destruct (Z.ltb_spec (sampleNum s) 0) as [Hneg|_]; [lia|].
  assert (Z.to_nat (sampleNum s) < length (sd s))%nat as Hlt by lia.
  destruct (lookup_lt_is_Some_2 (sd s) _ Hlt) as [old ->].
  rewrite list_lookup_insert_eq by exact Hlt.
  assert (Hlen1 : Z.of_nat (length (<[Z.to_nat (sampleNum s) := reading]> (sd s))) =
                  SAMPLES_PER_DAY) by (rewrite length_insert; exact Hlen).
  destruct (Z.geb_spec (sampleNum s + 1) SAMPLES_PER_DAY) as [Hwrap|Hnext].
  - eexists _, _. split; [reflexivity|]. split.
    + split; [exact Hlen1 | cbn; unfold SAMPLES_PER_DAY in *; cbn in *; lia].
    + destruct (threshold_crossed (temp reading)); reflexivity.
  - eexists _, _. split; [reflexivity|]. split.
    + split; [exact Hlen1 | cbn; lia].
    + destruct (threshold_crossed (temp reading)); reflexivity.
Qed.

(** ** Properties of TempHumidityMonitor.ino *)

(** C10: a sample triggers the threshold warning exactly when its
    temperature is below 10 or above 45; a temperature of exactly 10 or
    exactly 45 triggers none. *)
Theorem threshold_warning_iff (reading : SensorData) (s : samples) :
  is_float (temp reading) → samples_ok s →
  ∃ s' sent, collectSample reading s = Some (s', sent) ∧
    (warned sent = true ↔
       below (number_of (temp reading)) MIN_TEMP ∨
       above (number_of (temp reading)) MAX_TEMP) ∧
    (temp reading = float_of_int MIN_TEMP ∨ temp reading = float_of_int MAX_TEMP →
       warned sent = false).
Proof.
  intros Ht Hs.
  destruct (collectSample_ok reading s Hs) as (s' & sent & Hrun & _ & Hsent).
  exists s', sent. split; [exact Hrun|]. rewrite Hsent. split.
  - unfold threshold_crossed. rewrite orb_true_iff.
    change (float_of_int MIN_TEMP) with (S754_finite false 10485760 (-20)).
    change (float_of_int MAX_TEMP) with (S754_finite false 11796480 (-18)).
    rewrite (SFltb_below (temp reading) 10485760 (-20) MIN_TEMP Ht eq_refl eq_refl).
    rewrite (SFltb_above (temp reading) 11796480 (-18) MAX_TEMP Ht eq_refl eq_refl).
    reflexivity.
  - intros [Hr|Hr]; rewrite Hr; reflexivity.
Qed.

Lemma threshold_warning_iff_witness :
  is_float (temp cold) ∧ samples_ok mild_day ∧
  ∃ s' sent, collectSample cold mild_day = Some (s', sent) ∧
    (warned sent = true ↔
       below (number_of (temp cold)) MIN_TEMP ∨ above (number_of (temp cold)) MAX_TEMP) ∧
    (temp cold = float_of_int MIN_TEMP ∨ temp cold = float_of_int MAX_TEMP →
       warned sent = false).
Proof.
  assert (samples_ok mild_day) as Hs
    by (split; [reflexivity | change (0 <= 7 < 48); lia]).
  split; [reflexivity|]. split; [exact Hs|].
  exact (threshold_warning_iff cold mild_day eq_refl Hs).
Defined.

(** ** Further properties of TempHumidityMonitor.ino *)

Lemma at_index_insert_eq {A} (l : list A) i x :
  0 <= i < Z.of_nat (length l) → at_index (<[Z.to_nat i := x]> l) i = Some x.
Proof.
  intros H. unfold at_index. destruct (Z.ltb_spec i 0); [lia|].
  apply list_lookup_insert_eq. lia.
Qed.

Lemma at_index_insert_ne {A} (l : list A) i j x :
  0 <= i → i ≠ j → at_index (<[Z.to_nat i := x]> l) j = at_index l j.
Proof.
  intros Hi H. unfold at_index. destruct (Z.ltb_spec j 0); [reflexivity|].
  apply list_lookup_insert_ne. lia.
Qed.

Lemma collect_sample_ok_some reading s :
  samples_ok s → ∃ s' sent, collectSample reading s = Some (s', sent).
Proof.
  intros Hs. destruct (collectSample_ok reading s Hs) as (s' & sent & H & _).
  eauto.
Qed.

Lemma collectSample_eq reading s :
  samples_ok s →
  collectSample reading s =
    let sd1 := <[Z.to_nat (sampleNum s) := reading]> (sd s) in
    Some (mkSamples ((sampleNum s + 1) mod SAMPLES_PER_DAY) sd1,
          (if threshold_crossed (temp reading)
           then [ThresholdMsg sd1 (sampleNum s)] else []) ++
          (if sampleNum s =? SAMPLES_PER_DAY - 1 then [DailyMsg sd1] else [])).
Proof.
  intros [Hlen Hi]. unfold collectSample. cbn zeta.
  assert (SAMPLES_PER_DAY = 48) as H48 by reflexivity. rewrite H48 in *.
  unfold at_index at 1. destruct (Z.ltb_spec (sampleNum s) 0) as [Hneg|_]; [lia|].
  assert (Z.to_nat (sampleNum s) < length (sd s))%nat as Hlt by lia.
  destruct (lookup_lt_is_Some_2 (sd s) _ Hlt) as [old ->].
  rewrite at_index_insert_eq by lia.
  destruct (Z.geb_spec (sampleNum s + 1) 48) as [Hwrap|Hnext].
  - assert (sampleNum s = 47) as E by lia. rewrite E. reflexivity.
  - destruct (Z.eqb_spec (sampleNum s) (48 - 1)) as [E|E]; [lia|].
    rewrite Z.mod_small by lia. rewrite app_nil_r. reflexivity.
Qed.

(** X14: [collectSample] keeps its index inside the array of 48 samples:
    called with the index in range it stores the reading at the index,
    leaves the other samples alone and moves the index on by one, back to
    0 after 47; a warning it sends carries the array with the reading just
    stored and its index. *)
Theorem collect_sample_step (reading : SensorData) (s : samples) :
  samples_ok s →
  ∃ s' sent,
    collectSample reading s = Some (s', sent) ∧
    samples_ok s' ∧
    sampleNum s' = (sampleNum s + 1) mod SAMPLES_PER_DAY ∧
    at_index (sd s') (sampleNum s) = Some reading ∧
    (∀ j, j ≠ sampleNum s → at_index (sd s') j = at_index (sd s) j) ∧
    (∀ l i, ThresholdMsg l i ∈ sent → l = sd s' ∧ i = sampleNum s).
Proof.
  intros Hs. rewrite (collectSample_eq reading s Hs). cbn zeta.
  destruct Hs as [Hlen Hi].
  assert (SAMPLES_PER_DAY = 48) as H48 by reflexivity. rewrite H48 in *.
  eexists _, _. split; [reflexivity|]. cbn [sampleNum sd].
  split; [|split; [reflexivity|split; [|split]]].
  - split; cbn [sampleNum sd]; [rewrite length_insert; lia|].
    rewrite H48. apply Z.mod_pos_bound. lia.
  - apply at_index_insert_eq. lia.
  - intros j Hj. apply at_index_insert_ne; [lia | congruence].
  - intros l i Hin. apply elem_of_app in Hin as [Hin|Hin].
    + destruct (threshold_crossed (temp reading)).
      * apply list_elem_of_singleton in Hin. injection Hin as -> ->. tauto.
      * apply elem_of_nil in Hin. contradiction.
    + destruct (sampleNum s =? 48 - 1).
      * apply list_elem_of_singleton in Hin. discriminate.
      * apply elem_of_nil in Hin. contradiction.
Qed.

Lemma collect_sample_step_witness :
  samples_ok mild_day ∧
  ∃ s' sent, collectSample cold mild_day = Some (s', sent) ∧
             sampleNum s' = 8 ∧ at_index (sd s') 7 = Some cold.
Proof.
  assert (samples_ok mild_day) as Hs
    by (split; [reflexivity | change (0 <= 7 < 48); lia]).
  split; [exact Hs|].
  destruct (collect_sample_step cold mild_day Hs) as (s' & sent & Hrun & _ & Hn & Hat & _).
  exists s', sent. split; [exact Hrun|]. split; [exact Hn | exact Hat].
Defined.

Lemma collect_all_app rs1 : ∀ rs2 s,
  collect_all (rs1 ++ rs2) s =
    match collect_all rs1 s with
    | None => None
    | Some (s1, sent1) =>
        match collect_all rs2 s1 with
        | None => None
        | Some (s2, sent2) => Some (s2, sent1 ++ sent2)
        end
    end.
Proof.
  induction rs1 as [|r rs1 IH]; intros rs2 s; cbn [app collect_all].
  - destruct (collect_all rs2 s) as [[s2 sent2]|]; reflexivity.
  - destruct (collectSample r s) as [[s1 sent1]|]; [|reflexivity].
    rewrite IH. destruct (collect_all rs1 s1) as [[s2 sent2]|]; [|reflexivity].
    destruct (collect_all rs2 s2) as [[s3 sent3]|]; [|reflexivity].
    rewrite app_assoc. reflexivity.
Qed.

(** Readings stored without reaching the end of the array. *)
Lemma collect_all_prefix rs : ∀ s,
  samples_ok s → sampleNum s + Z.of_nat (length rs) <= SAMPLES_PER_DAY - 1 →
  ∃ warnings,
    collect_all rs s =
      Some (mkSamples (sampleNum s + Z.of_nat (length rs))
              (take (Z.to_nat (sampleNum s)) (sd s) ++ rs ++
               drop (Z.to_nat (sampleNum s) + length rs) (sd s)),
            warnings) ∧
    Forall is_warning warnings ∧
    length warnings = length (filter crossing rs).
Proof.
  assert (SAMPLES_PER_DAY = 48) as H48 by reflexivity. rewrite H48.
  induction rs as [|r rs IH]; intros s Hs Hroom.
  - exists []. cbn [collect_all length app]. rewrite Z.add_0_r, Nat.add_0_r, take_drop.
    destruct s; cbn. split; [reflexivity|]. split; [constructor | reflexivity].
  - cbn [length] in Hroom. cbn [collect_all].
    rewrite (collectSample_eq r s Hs). cbn zeta. rewrite H48.
    pose proof Hs as [Hlen Hi]. rewrite H48 in Hlen, Hi.
    destruct (Z.eqb_spec (sampleNum s) (48 - 1)) as [E|_]; [lia|].
    rewrite Z.mod_small, app_nil_r by lia.
    set (s1 := mkSamples (sampleNum s + 1) (<[Z.to_nat (sampleNum s) := r]> (sd s))).
    assert (samples_ok s1) as Hs1.
    { split; cbn [sampleNum sd s1]; rewrite ?length_insert, ?H48; lia. }
    destruct (IH s1 Hs1) as (ws & Hrun & Hall & Hcount).
    { cbn [sampleNum s1]. lia. }
    rewrite Hrun. cbn [sampleNum sd s1].
    assert (take (Z.to_nat (sampleNum s + 1)) (<[Z.to_nat (sampleNum s) := r]> (sd s)) ++
            rs ++ drop (Z.to_nat (sampleNum s + 1) + length rs)
                    (<[Z.to_nat (sampleNum s) := r]> (sd s)) =
            take (Z.to_nat (sampleNum s)) (sd s) ++ (r :: rs) ++
            drop (Z.to_nat (sampleNum s) + length (r :: rs)) (sd s)) as Hsd.
    { replace (Z.to_nat (sampleNum s + 1)) with (S (Z.to_nat (sampleNum s))) by lia.
      erewrite take_S_r by (apply list_lookup_insert_eq; lia).
      rewrite take_insert_ge, drop_insert_lt by lia.
      rewrite <- app_assoc. cbn [app length].
      rewrite Nat.add_succ_r. reflexivity. }
    rewrite Hsd.
    replace (sampleNum s + 1 + Z.of_nat (length rs))
      with (sampleNum s + Z.of_nat (length (r :: rs))) by (cbn [length]; lia).
    eexists. split; [reflexivity|]. split.
    + apply Forall_app. split; [|exact Hall].
      destruct (threshold_crossed (temp r)); repeat constructor.
    + rewrite length_app, Hcount, filter_cons.
      destruct (decide (crossing r)) as [Hc|Hc]; unfold crossing in Hc.
      * rewrite Hc. reflexivity.
      * apply not_true_is_false in Hc. rewrite Hc. reflexivity.
Qed.

(** X15: a day of samples gives one daily summary: 48 readings collected
    from index 0 fill the array in order, the summary is the last mail, it
    carries exactly these 48 readings, and before it comes one warning for
    each reading that crossed a threshold; the index is back at 0. *)
Theorem daily_summary_after_48 (rs : list SensorData) (s : samples) :
  samples_ok s → sampleNum s = 0 → Z.of_nat (length rs) = SAMPLES_PER_DAY →
  ∃ warnings,
    collect_all rs s = Some (mkSamples 0 rs, warnings ++ [DailyMsg rs]) ∧
    Forall is_warning warnings ∧
    length warnings = length (filter crossing rs).
Proof.
  assert (SAMPLES_PER_DAY = 48) as H48 by reflexivity. rewrite H48.
  intros Hs H0 Hlen.
  destruct (lookup_lt_is_Some_2 rs 47 ltac:(lia)) as [r Hr].
  assert (rs = take 47 rs ++ [r]) as Hsplit.
  { rewrite <- (take_drop 47 rs) at 1. f_equal.
    rewrite (drop_S _ _ _ Hr), drop_ge by lia. reflexivity. }
  destruct (collect_all_prefix (take 47 rs) s Hs) as (ws & Hrun & Hall & Hcount).
  { rewrite H0, length_take, H48. lia. }
  rewrite H0, length_take in Hrun.
  replace (47 `min` length rs)%nat with 47%nat in Hrun by lia.
  change (Z.to_nat 0) with 0%nat in Hrun. rewrite take_0 in Hrun.
  cbn [app Nat.add Z.add Z.of_nat] in Hrun.
  pose proof Hs as [Hlens _]. rewrite H48 in Hlens.
  set (s47 := mkSamples _ _) in Hrun.
  assert (samples_ok s47) as Hs47.
  { split; cbn [sampleNum sd s47]; rewrite ?H48.
    - rewrite length_app, length_take, length_drop. lia.
    - change (Z.of_nat 47) with 47. lia. }
  assert (collect_all rs s = collect_all (take 47 rs ++ [r]) s) as ->
    by (rewrite <- Hsplit; reflexivity).
  rewrite collect_all_app, Hrun. cbn [collect_all].
  rewrite (collectSample_eq r s47 Hs47). cbn zeta. cbn [sampleNum sd s47].
  change (0 + Z.of_nat 47) with 47. change (Z.to_nat 47) with 47%nat.
  assert (<[47%nat := r]> (take 47 rs ++ drop 47 (sd s)) = rs) as Hfull.
  { rewrite insert_app_r_alt by (rewrite length_take; lia).
    rewrite length_take. replace (47 - 47 `min` length rs)%nat with 0%nat by lia.
    destruct (drop 47 (sd s)) as [|x [|y t]] eqn:Ed.
    - apply (f_equal length) in Ed. rewrite length_drop in Ed. cbn in Ed. lia.
    - cbn. symmetry. exact Hsplit.
    - apply (f_equal length) in Ed. rewrite length_drop in Ed. cbn in Ed. lia. }
  rewrite Hfull. rewrite H48. change (47 =? 48 - 1) with true.
  change ((47 + 1) mod 48) with 0. cbn iota.
  exists (ws ++ (if threshold_crossed (temp r) then [ThresholdMsg rs 47] else [])).
  split; [|split].
  - rewrite app_nil_r, <- !app_assoc. reflexivity.
  - apply Forall_app. split; [exact Hall|].
    destruct (threshold_crossed (temp r)); repeat constructor.
  - rewrite length_app, Hcount.
    replace (filter crossing rs) with (filter crossing (take 47 rs ++ [r]))
      by (rewrite <- Hsplit; reflexivity).
    rewrite filter_app, length_app. f_equal.
    rewrite filter_cons, filter_nil.
    destruct (decide (crossing r)) as [Hc|Hc]; unfold crossing in Hc.
    + rewrite Hc. reflexivity.
    + apply not_true_is_false in Hc. rewrite Hc. reflexivity.
Qed.

Lemma daily_summary_after_48_witness :
  samples_ok new_day ∧
  ∃ warnings, collect_all cold_day new_day =
                Some (mkSamples 0 cold_day, warnings ++ [DailyMsg cold_day]) ∧
              length warnings = 48%nat.
Proof.
  assert (samples_ok new_day) as Hs
    by (split; [reflexivity | change (0 <= 0 < 48); lia]).
  split; [exact Hs|].
  destruct (daily_summary_after_48 cold_day new_day Hs eq_refl eq_refl)
    as (ws & Hrun & _ & Hcount).
  exists ws. split; [exact Hrun|]. rewrite Hcount. reflexivity.
Defined.

Lemma mails_of_app r1 r2 : mails_of (r1 ++ r2) = mails_of r1 ++ mails_of r2.
Proof. apply omap_app. Qed.

Lemma demands_of_app r1 r2 : demands_of (r1 ++ r2) = demands_of r1 ++ demands_of r2.
Proof. apply omap_app. Qed.

Lemma on_demand_cons t ticks :
  on_demand (t :: ticks) =
    (if button t then [OnDemandMsg (demand t)] else []) ++ on_demand ticks.
Proof. unfold on_demand. simpl. destruct (button t); reflexivity. Qed.

(** Calls of [loop] before the next sample is due. *)
Lemma loops_waiting ticks : ∀ m,
  0 <= numloops m → numloops m + Z.of_nat (length ticks) <= 180 →
  loops ticks m =
    Some (mkMonitor (numloops m + Z.of_nat (length ticks)) (store m), on_demand ticks).
Proof.
  induction ticks as [|t ticks IH]; intros m H0 Hroom.
  - cbn. rewrite Z.add_0_r. destruct m; reflexivity.
  - cbn [length] in Hroom. cbn [loops]. unfold loop.
    change (SAMPLE_MINUTES * 60) with 1800.
    destruct (Z.geb_spec (numloops m * 10) 1800) as [Hge|Hlt]; [lia|].
    rewrite IH by (cbn [numloops]; lia). cbn [numloops store].
    replace (numloops m + 1 + Z.of_nat (length ticks))
      with (numloops m + Z.of_nat (length (t :: ticks))) by (cbn [length]; lia).
    rewrite on_demand_cons. reflexivity.
Qed.

(** The counter of [loop] stays between 0 and 180, so the product
    [numloops * 10] is far from the range of an [int] and the integers of
    the model compute what the board computes. *)
Lemma loop_counter (i : tick) (m m' : monitor) (sent : list report) :
  0 <= numloops m <= 180 → loop i m = Some (m', sent) → 1 <= numloops m' <= 180.
Proof.
  intros Hn. unfold loop, SAMPLE_MINUTES.
  destruct (Z.geb_spec (numloops m * 10) (30 * 60)) as [Hge|Hlt].
  - destruct (collectSample _ _) as [[s' out]|]; [|discriminate].
    intros [= <- _]. cbn. lia.
  - intros [= <- _]. cbn. lia.
Qed.

(** X16: a sample is collected every 180 calls of [loop], that is every 30
    minutes of ten-second waits: the first 180 calls after the start
    collect none and leave the counter at 180; a call that finds the
    counter at 180 collects one sample, the 179 calls after it collect
    none, and the counter is at 180 again. *)
Theorem sample_every_180_calls (m : monitor) (t : tick) (ticks : list tick) :
  samples_ok (store m) →
  (numloops m = 0 → length ticks = 179%nat →
     loops (t :: ticks) m = Some (mkMonitor 180 (store m), on_demand (t :: ticks))) ∧
  (numloops m = 180 → length ticks = 179%nat →
     ∃ s' sent,
       collectSample (sample t) (store m) = Some (s', sent) ∧
       loops (t :: ticks) m =
         Some (mkMonitor 180 s',
               on_demand [t] ++ (FromSample <$> sent) ++ on_demand ticks)).
Proof.
  intros Hs. split.
  - intros H0 Hlen. rewrite loops_waiting by (rewrite ?H0; cbn [length]; lia).
    rewrite H0. cbn [length]. rewrite Hlen. reflexivity.
  - intros H180 Hlen.
    destruct (collect_sample_ok_some (sample t) (store m) Hs) as (s' & sent & Hrun).
    exists s', sent. split; [exact Hrun|].
    cbn [loops]. unfold loop. rewrite H180.
    change (180 * 10 >=? SAMPLE_MINUTES * 60) with true. cbn iota.
    rewrite Hrun.
    rewrite loops_waiting by (cbn [numloops]; lia).
    cbn [numloops store]. rewrite Hlen.
    rewrite on_demand_cons. change (on_demand []) with (@nil report).
    rewrite app_nil_r, <- !app_assoc. reflexivity.
Qed.

Lemma sample_every_180_calls_witness :
  samples_ok (store at_start) ∧
  loops (pressed_tick :: replicate 179 quiet_tick) at_start =
    Some (mkMonitor 180 mild_day, [OnDemandMsg cold]).
Proof.
  assert (samples_ok (store at_start)) as Hs
    by (split; [reflexivity | change (0 <= 7 < 48); lia]).
  split; [exact Hs|].
  exact (proj1 (sample_every_180_calls at_start pressed_tick (replicate 179 quiet_tick) Hs)
           eq_refl eq_refl).
Defined.

(** X17: the button changes nothing but the on-demand mails: a run with
    the button released throughout ends in the same counter and samples
    and sends the same warnings and summaries, and a run sends one
    on-demand mail, with the reading of that call, for each call that
    finds the button pressed. *)
Theorem button_only_adds_mail (ticks : list tick) : ∀ (m : monitor),
  match loops ticks m, loops (released <$> ticks) m with
  | Some (m1, sent1), Some (m2, sent2) =>
      m1 = m2 ∧ mails_of sent1 = mails_of sent2 ∧ demands_of sent2 = [] ∧
      demands_of sent1 = demand <$> filter (fun t => button t = true) ticks
  | None, None => True
  | _, _ => False
  end.
Proof.
  induction ticks as [|t ticks IH]; intros m.
  - cbn. tauto.
  - cbn [fmap list_fmap loops]. unfold loop. cbn [released button sample demand].
    rewrite filter_cons.
    destruct (numloops m * 10 >=? SAMPLE_MINUTES * 60).
    + destruct (collectSample (sample t) (store m)) as [[s' sent]|]; [|exact I].
      specialize (IH (mkMonitor (0 + 1) s')).
      destruct (loops ticks _) as [[m1 sent1]|], (loops (released <$> ticks) _) as [[m2 sent2]|];
        try exact IH.
      destruct IH as (Hm & Hmails & Hd2 & Hd1).
      rewrite !mails_of_app, !demands_of_app, Hmails, Hd2, Hd1.
      destruct (button t) eqn:Eb.
      * rewrite decide_True by reflexivity. split; [exact Hm|].
        cbn [app]. split; [reflexivity|]. split.
        -- clear. induction sent as [|x sent IH]; [reflexivity | exact IH].
        -- cbn [fmap list_fmap]. f_equal.
           clear. induction sent as [|x sent IH]; [reflexivity | exact IH].
      * rewrite decide_False by discriminate. split; [exact Hm|].
        cbn [app]. split; [reflexivity|]. split.
        -- clear. induction sent as [|x sent IH]; [reflexivity | exact IH].
        -- clear. induction sent as [|x sent IH]; [reflexivity | exact IH].
    + specialize (IH (mkMonitor (numloops m + 1) (store m))).
      destruct (loops ticks _) as [[m1 sent1]|], (loops (released <$> ticks) _) as [[m2 sent2]|];
        try exact IH.
      destruct IH as (Hm & Hmails & Hd2 & Hd1).
      rewrite !mails_of_app, !demands_of_app, Hmails, Hd2, Hd1.
      destruct (button t) eqn:Eb.
      * rewrite decide_True by reflexivity. cbn. tauto.
      * rewrite decide_False by discriminate. cbn. tauto.
Qed.

Lemma SFadd_nan_r x : SFadd prec emax x S754_nan = S754_nan.
Proof. destruct x; reflexivity. Qed.

Lemma fold_SFadd_nan l : fold_left (SFadd prec emax) l S754_nan = S754_nan.
Proof. induction l as [|x l IH]; [reflexivity | exact IH]. Qed.

(** X18: one reading whose temperature is not a number makes the daily
    average temperature not a number, and likewise for the humidity: the
    sums in [sendDailyMsg] have no test for it. *)
Theorem average_of_nan (l : list SensorData) (r : SensorData) :
  r ∈ l →
  (temp r = S754_nan → fst (daily_averages l) = S754_nan) ∧
  (humidity r = S754_nan → snd (daily_averages l) = S754_nan).
Proof.
  intros Hin.
  assert (Hnan : ∀ column, S754_nan ∈ column → average column = S754_nan).
  { intros column Hc. unfold average.
    assert (∀ acc, fold_left (SFadd prec emax) column acc = S754_nan) as H.
    { induction column as [|x c IH]; intros acc.
      - apply elem_of_nil in Hc. contradiction.
      - apply elem_of_cons in Hc as [<- | Hc]; cbn [fold_left].
        + rewrite SFadd_nan_r. apply fold_SFadd_nan.
        + apply IH, Hc. }
    rewrite H. reflexivity. }
  split; intros Hr; unfold daily_averages; cbn [fst snd]; apply Hnan; rewrite <- Hr.
  - apply (list_elem_of_fmap_2 temp). exact Hin.
  - apply (list_elem_of_fmap_2 humidity). exact Hin.
Qed.

Lemma average_of_nan_witness :
  broken ∈ (broken :: replicate 47 cold) ∧
  fst (daily_averages (broken :: replicate 47 cold)) = S754_nan.
Proof.
  assert (broken ∈ (broken :: replicate 47 cold)) as H by left.
  split; [exact H|].
  exact (proj1 (average_of_nan _ broken H) eq_refl).
Defined.

End Monitor.
